(** * URL shortener: the short-code generator and the link registry

    A shallow embedding of the Go backend
    (internal/services, internal/repository, internal/validators,
    internal/handlers) and the properties of its shorten / resolve paths.

    Go values are modelled as follows.
    - [string] is Rocq's [string]; [[]byte] is [list byte].
    - [time.Time] is an integer instant ([Z]); the zero [time.Time] is [0];
      [time.Duration] is an integer number of the same units.  The range
      limits of the two Go representations and the rounding of instants by
      the BSON encoding are not modelled.
    - [int64] fields are [Z]; the only arithmetic on them is the store's
      [$inc], whose 64-bit overflow check is written out.
    - A function returning [(T, error)] returns [result T]; a pointer
      result that may be [nil] without an error is an [option] inside [Ok].
    - MongoDB's collection is the list of its documents in natural
      (insertion) order; Redis' list is a [list string], popped at its head.
    - A network call that fails has no effect on the store it addressed.
    - Every call that reaches the outside world (MongoDB, Redis, the wall
      clock, crypto/rand) reads a [Platform] oracle at the position given by
      a counter kept in the [World], so a run is a function of the platform
      and the initial world. *)

From Stdlib Require Import ZArith List String Ascii Bool Lia.
From Stdlib Require Import Strings.Byte.
Import ListNotations.

Local Open Scope string_scope.
Local Open Scope Z_scope.

(** ** Go's [error] values *)

Inductive error : Type :=
| ErrInvalidURL              (* services: errors.New("invalid URL") *)
| ErrURLNotFound             (* services: errors.New("URL not found") *)
| ErrURLExpired              (* services: errors.New("URL expired") *)
| ErrURLInactive             (* services: errors.New("URL is inactive") *)
| ErrKeyServiceUnavailable   (* services: errors.New("key service unavailable") *)
| ErrRedisUnavailable        (* services: errors.New("redis unavailable") *)
| redis_Nil                  (* go-redis: the key holds no element *)
| mongo_ErrNoDocuments       (* mongo-driver: the filter matched nothing *)
| mongo_DuplicateKey         (* mongo-driver: a unique index rejected a write *)
| mongo_IncOverflow          (* mongod: $inc would leave the 64-bit range *)
| IOError (msg : string)     (* any transport / server failure of a driver *)
| Errorf (prefix : string) (wrapped : error).  (* fmt.Errorf("<prefix>: %w", err) *)

Definition error_eq_dec : forall a b : error, {a = b} + {a <> b}.
Proof. decide equality; apply string_dec. Defined.

(** [err == sentinel] in Go. *)
Definition error_eqb (a b : error) : bool :=
  if error_eq_dec a b then true else false.

(** The [Error()] text, as [%v] prints it. *)
Fixpoint Error (e : error) : string :=
  match e with
  | ErrInvalidURL => "invalid URL"
  | ErrURLNotFound => "URL not found"
  | ErrURLExpired => "URL expired"
  | ErrURLInactive => "URL is inactive"
  | ErrKeyServiceUnavailable => "key service unavailable"
  | ErrRedisUnavailable => "redis unavailable"
  | redis_Nil => "redis: nil"
  | mongo_ErrNoDocuments => "mongo: no documents in result"
  | mongo_DuplicateKey => "E11000 duplicate key error"
  | mongo_IncOverflow => "Failed to apply $inc operations to current value"
  | IOError msg => msg
  | Errorf prefix wrapped => prefix ++ ": " ++ Error wrapped
  end.

Inductive result (A : Type) : Type :=
| Ok (a : A)
| Err (e : error).
Arguments Ok {A} a.
Arguments Err {A} e.

(** ** package time *)

Definition time_Time := Z.
Definition time_Duration := Z.

Definition time_IsZero (t : time_Time) : bool := t =? 0.
Definition time_Add (t : time_Time) (d : time_Duration) : time_Time := t + d.
(** [t.After(u)]: [t] is strictly later than [u]. *)
Definition time_After (t u : time_Time) : bool := u <? t.

(** ** package models *)

Record ShortURL : Type := mkShortURL {
  ID : Z;                      (* primitive.ObjectID; 0 is the nil id *)
  OriginalURL : string;
  ShortCode : string;
  CreatedAt : time_Time;
  ExpiresAt : option time_Time;     (* *time.Time *)
  ClickCount : Z;              (* int64 *)
  IsActive : bool
}.

(** ** net/url, as far as the validators read it *)

Record URL : Type := mkURL {
  Scheme : string;
  Host : string
}.

(** ** The platform and the world *)

(** What the process cannot decide: the standard library's URL parser, the
    successive readings of the wall clock, the bytes crypto/rand delivers on
    each call, and the failure (if any) of each network call in turn. *)
Class Platform : Type := {
  url_Parse : string -> option URL;
  clock : nat -> time_Time;
  entropy : nat -> nat -> byte;
  io_fault : nat -> option string
}.

Record World : Type := mkWorld {
  collection : list ShortURL;  (* the MongoDB collection of short URLs *)
  objectIDs : nat;             (* ObjectIDs handed out so far *)
  queue : list string;         (* the Redis list named by queueName *)
  stdout : list string;        (* lines written by fmt.Printf *)
  clock_reads : nat;           (* calls of time.Now so far *)
  rand_reads : nat;            (* calls of rand.Read so far *)
  io_calls : nat               (* MongoDB and Redis commands so far *)
}.

Definition M (A : Type) : Type := World -> A * World.

Definition ret {A} (a : A) : M A := fun w => (a, w).
Definition bind {A B} (c : M A) (k : A -> M B) : M B :=
  fun w => let (a, w1) := c w in k a w1.

Declare Scope go_scope.
Delimit Scope go_scope with go.
Notation "x <- c ;; k" := (bind c (fun x => k))
  (at level 61, c at next level, right associativity) : go_scope.
Notation "c ;;; k" := (bind c (fun _ => k))
  (at level 61, right associativity) : go_scope.
Local Open Scope go_scope.

Definition set_collection (l : list ShortURL) (w : World) : World :=
  mkWorld l (objectIDs w) (queue w) (stdout w)
          (clock_reads w) (rand_reads w) (io_calls w).

Definition set_queue (q : list string) (w : World) : World :=
  mkWorld (collection w) (objectIDs w) q (stdout w)
          (clock_reads w) (rand_reads w) (io_calls w).

Section Effects.
Context {P : Platform}.

(** [time.Now()] *)
Definition time_Now : M time_Time := fun w =>
  (clock (clock_reads w),
   mkWorld (collection w) (objectIDs w) (queue w) (stdout w)
           (S (clock_reads w)) (rand_reads w) (io_calls w)).

(** [rand.Read(b)] on a buffer of [n] bytes: every position is filled. *)
Definition rand_Read (n : nat) : M (list byte) := fun w =>
  (map (entropy (rand_reads w)) (seq 0 n),
   mkWorld (collection w) (objectIDs w) (queue w) (stdout w)
           (clock_reads w) (S (rand_reads w)) (io_calls w)).

(** One round trip to MongoDB or Redis: it may fail before the command
    takes effect. *)
Definition round_trip : M (option error) := fun w =>
  (option_map IOError (io_fault (io_calls w)),
   mkWorld (collection w) (objectIDs w) (queue w) (stdout w)
           (clock_reads w) (rand_reads w) (S (io_calls w))).

(** [fmt.Printf] *)
Definition fmt_Printf (line : string) : M unit := fun w =>
  (tt,
   mkWorld (collection w) (objectIDs w) (queue w) (stdout w ++ [line])
           (clock_reads w) (rand_reads w) (io_calls w)).

Definition new_ObjectID : M Z := fun w =>
  (Z.of_nat (S (objectIDs w)),
   mkWorld (collection w) (S (objectIDs w)) (queue w) (stdout w)
           (clock_reads w) (rand_reads w) (io_calls w)).
End Effects.

(** ** encoding/base64, [URLEncoding] (RFC 4648 section 5, with padding) *)

Definition encodeURL : string :=
  "ABCDEFGHIJKLMNOPQRSTUVWXYZabcdefghijklmnopqrstuvwxyz0123456789-_".

Definition StdPadding : ascii := "="%char.

Definition encode (i : Z) : ascii :=
  nth (Z.to_nat i) (list_ascii_of_string encodeURL) StdPadding.

Definition uint (b : byte) : Z := Z.of_N (Byte.to_N b).

(** [Encoding.Encode]: three source bytes give four characters; a final
    group of one or two bytes is completed with the padding character. *)
Fixpoint base64_Encode (src : list byte) : list ascii :=
  match src with
  | [] => []
  | [a] =>
      let val := Z.shiftl (uint a) 16 in
      [ encode (Z.land (Z.shiftr val 18) 63);
        encode (Z.land (Z.shiftr val 12) 63);
        StdPadding; StdPadding ]
  | [a; b] =>
      let val := Z.lor (Z.shiftl (uint a) 16) (Z.shiftl (uint b) 8) in
      [ encode (Z.land (Z.shiftr val 18) 63);
        encode (Z.land (Z.shiftr val 12) 63);
        encode (Z.land (Z.shiftr val 6) 63);
        StdPadding ]
  | a :: b :: c :: rest =>
      let val := Z.lor (Z.lor (Z.shiftl (uint a) 16) (Z.shiftl (uint b) 8))
                       (uint c) in
      encode (Z.land (Z.shiftr val 18) 63)
        :: encode (Z.land (Z.shiftr val 12) 63)
        :: encode (Z.land (Z.shiftr val 6) 63)
        :: encode (Z.land val 63)
        :: base64_Encode rest
  end.

Definition EncodeToString (src : list byte) : string :=
  string_of_list_ascii (base64_Encode src).

(** ** package strings *)

Fixpoint ContainsRune (cutset : string) (c : ascii) : bool :=
  match cutset with
  | EmptyString => false
  | String d rest => Ascii.eqb c d || ContainsRune rest c
  end.

(** [strings.TrimRight(s, cutset)]: [s] without its trailing characters
    that belong to [cutset]. *)
Fixpoint TrimRight (s cutset : string) : string :=
  match s with
  | EmptyString => EmptyString
  | String c rest =>
      match TrimRight rest cutset with
      | EmptyString => if ContainsRune cutset c then EmptyString
                       else String c EmptyString
      | kept => String c kept
      end
  end.

(** ** internal/services/key_service.go *)

Record KeyService : Type := mkKeyService {
  redisClient : option string;   (* *redis.Client: None is nil *)
  serviceURL : string;
  queueName : string
}.

Section KeyServiceCode.
Context {P : Platform}.

(** [redisClient.LPop(ctx, queueName).Result()] *)
Definition LPop : M (result string) :=
  fault <- round_trip ;;
  match fault with
  | Some e => ret (Err e)
  | None => fun w =>
      match queue w with
      | [] => (Err redis_Nil, w)
      | head :: rest => (Ok head, set_queue rest w)
      end
  end.

Definition getFromRedisQueue (s : KeyService) : M (result string) :=
  match redisClient s with
  | None => ret (Err ErrRedisUnavailable)
  | Some _ =>
      r <- LPop ;;
      match r with
      | Err err =>
          if error_eqb err redis_Nil then ret (Ok "")
          else ret (Err (Errorf "failed to get short code from redis" err))
      | Ok result => ret (Ok result)
      end
  end.

Definition generateShortCode (s : KeyService) : M string :=
  b <- rand_Read 6 ;;
  let encoded := EncodeToString b in
  let code := TrimRight encoded "=" in
  if (8 <? length code)%nat then ret (substring 0 8 code) else ret code.

Definition GenerateShortCode (s : KeyService) : M string :=
  generateShortCode s.

Definition GetShortCode (s : KeyService) : M (result string) :=
  r <- getFromRedisQueue s ;;
  match r with
  | Ok shortCode =>
      if negb (String.eqb shortCode "") then ret (Ok shortCode)
      else shortCode <- generateShortCode s ;; ret (Ok shortCode)
  | Err _ =>
      shortCode <- generateShortCode s ;; ret (Ok shortCode)
  end.
End KeyServiceCode.

Arguments generateShortCode : simpl never.

(** ** internal/repository/mongo_repository.go *)

Definition with_ID (id : Z) (d : ShortURL) : ShortURL :=
  mkShortURL id (OriginalURL d) (ShortCode d) (CreatedAt d) (ExpiresAt d)
             (ClickCount d) (IsActive d).

Definition with_CreatedAt (t : time_Time) (d : ShortURL) : ShortURL :=
  mkShortURL (ID d) (OriginalURL d) (ShortCode d) t (ExpiresAt d)
             (ClickCount d) (IsActive d).

Definition with_ExpiresAt (t : option time_Time) (d : ShortURL) : ShortURL :=
  mkShortURL (ID d) (OriginalURL d) (ShortCode d) (CreatedAt d) t
             (ClickCount d) (IsActive d).

Definition with_ClickCount (n : Z) (d : ShortURL) : ShortURL :=
  mkShortURL (ID d) (OriginalURL d) (ShortCode d) (CreatedAt d) (ExpiresAt d)
             n (IsActive d).

Definition with_IsActive (b : bool) (d : ShortURL) : ShortURL :=
  mkShortURL (ID d) (OriginalURL d) (ShortCode d) (CreatedAt d) (ExpiresAt d)
             (ClickCount d) b.

(** [bson.M{"short_code": shortCode}] and [bson.M{"original_url": originalURL}] *)
Definition by_short_code (shortCode : string) (d : ShortURL) : bool :=
  String.eqb (ShortCode d) shortCode.

Definition by_original_url (originalURL : string) (d : ShortURL) : bool :=
  String.eqb (OriginalURL d) originalURL.

(** The unique indexes of the collection: [_id], and [short_code] as
    created by [NewMongoRepository]. *)
Definition violates_unique_index (doc : ShortURL) (docs : list ShortURL) : bool :=
  existsb (fun d => (ID d =? ID doc) || String.eqb (ShortCode d) (ShortCode doc))
          docs.

Definition max_int64 : Z := 9223372036854775807.

(** [{"$inc": {"click_count": 1}}] applied to the first document the filter
    matches; no match is no change. *)
Fixpoint inc_click_count (filter : ShortURL -> bool) (docs : list ShortURL)
  : result (list ShortURL) :=
  match docs with
  | [] => Ok []
  | d :: rest =>
      if filter d then
        if ClickCount d + 1 <=? max_int64
        then Ok (with_ClickCount (ClickCount d + 1) d :: rest)
        else Err mongo_IncOverflow
      else
        match inc_click_count filter rest with
        | Ok rest' => Ok (d :: rest')
        | Err e => Err e
        end
  end.

Section MongoRepositoryCode.
Context {P : Platform}.

(** [collection.FindOne(ctx, filter).Decode(&shortURL)] *)
Definition FindOne (filter : ShortURL -> bool) : M (result ShortURL) :=
  fault <- round_trip ;;
  match fault with
  | Some e => ret (Err e)
  | None => fun w =>
      match find filter (collection w) with
      | Some d => (Ok d, w)
      | None => (Err mongo_ErrNoDocuments, w)
      end
  end.

(** [collection.InsertOne(ctx, doc)]: the driver gives a document whose
    [_id] is omitted (the nil id, by [omitempty]) a fresh ObjectID. *)
Definition InsertOne (doc : ShortURL) : M (option error) :=
  stored <- (if ID doc =? 0
             then id <- new_ObjectID ;; ret (with_ID id doc)
             else ret doc) ;;
  fault <- round_trip ;;
  match fault with
  | Some e => ret (Some e)
  | None => fun w =>
      if violates_unique_index stored (collection w)
      then (Some mongo_DuplicateKey, w)
      else (None, set_collection (collection w ++ [stored]) w)
  end.

(** [collection.UpdateOne(ctx, filter, {"$inc": {"click_count": 1}})] *)
Definition UpdateOne_inc (filter : ShortURL -> bool) : M (option error) :=
  fault <- round_trip ;;
  match fault with
  | Some e => ret (Some e)
  | None => fun w =>
      match inc_click_count filter (collection w) with
      | Ok docs => (None, set_collection docs w)
      | Err e => (Some e, w)
      end
  end.

(** The caller's struct is written through the pointer: the updated struct
    is returned next to the error. *)
Definition CreateShortURL (shortURL : ShortURL) : M (ShortURL * option error) :=
  shortURL <- (if time_IsZero (CreatedAt shortURL)
               then now <- time_Now ;; ret (with_CreatedAt now shortURL)
               else ret shortURL) ;;
  let shortURL := if negb (IsActive shortURL)
                  then with_IsActive true shortURL else shortURL in
  let shortURL := if ClickCount shortURL =? 0
                  then with_ClickCount 0 shortURL else shortURL in
  err <- InsertOne shortURL ;;
  ret (shortURL, err).

Definition GetShortURLByCode (shortCode : string) : M (result ShortURL) :=
  r <- FindOne (by_short_code shortCode) ;;
  match r with
  | Err err =>
      if error_eqb err mongo_ErrNoDocuments then ret (Err err)
      else ret (Err err)
  | Ok shortURL => ret (Ok shortURL)
  end.

Definition GetShortURLByOriginal (originalURL : string)
  : M (result (option ShortURL)) :=
  r <- FindOne (by_original_url originalURL) ;;
  match r with
  | Err err =>
      if error_eqb err mongo_ErrNoDocuments then ret (Ok None)
      else ret (Err err)
  | Ok shortURL => ret (Ok (Some shortURL))
  end.

Definition UpdateClickCount (shortCode : string) : M (option error) :=
  UpdateOne_inc (by_short_code shortCode).

Definition repo_GetStats (shortCode : string) : M (result ShortURL) :=
  GetShortURLByCode shortCode.
End MongoRepositoryCode.

(** ** internal/validators/validators.go *)

Definition IsValidURL {P : Platform} (str : string) : bool :=
  match url_Parse str with
  | None => false
  | Some u => negb (String.eqb (Scheme u) "") && negb (String.eqb (Host u) "")
  end.

(** ** internal/services/url_service.go *)

Record URLService : Type := mkURLService {
  keyService : KeyService
  (* repo *MongoRepository: its collection is [collection] of the world *)
}.

Definition LF : string := String (ascii_of_nat 10) EmptyString.

Section URLServiceCode.
Context {P : Platform}.

Definition isValidURL (rawURL : string) : bool :=
  match url_Parse rawURL with
  | None => false
  | Some parsedURL =>
      negb (String.eqb (Scheme parsedURL) "")
      && negb (String.eqb (Host parsedURL) "")
  end.

Definition ShortenURL (s : URLService) (originalURL : string)
           (expiresIn : option time_Duration) : M (result ShortURL) :=
  if negb (isValidURL originalURL) then ret (Err ErrInvalidURL) else
  existing <- GetShortURLByOriginal originalURL ;;
  match existing with
  | Ok (Some existing) => ret (Ok existing)
  | _ =>
      r <- GetShortCode (keyService s) ;;
      match r with
      | Err err => ret (Err (Errorf "failed to generate short code" err))
      | Ok shortCode =>
          let shortURL := mkShortURL 0 originalURL shortCode 0 None 0 false in
          shortURL <- match expiresIn with
                      | Some d =>
                          now <- time_Now ;;
                          ret (with_ExpiresAt (Some (time_Add now d)) shortURL)
                      | None => ret shortURL
                      end ;;
          created <- CreateShortURL shortURL ;;
          match snd created with
          | Some err => ret (Err (Errorf "failed to create short URL" err))
          | None => ret (Ok (fst created))
          end
      end
  end.

Definition GetOriginalURL (s : URLService) (shortCode : string)
  : M (result string) :=
  r <- GetShortURLByCode shortCode ;;
  match r with
  | Err _ => ret (Err ErrURLNotFound)
  | Ok shortURL =>
      if negb (IsActive shortURL) then ret (Err ErrURLInactive) else
      expired <- match ExpiresAt shortURL with
                 | Some expiresAt =>
                     now <- time_Now ;; ret (time_After now expiresAt)
                 | None => ret false
                 end ;;
      if expired then ret (Err ErrURLExpired) else
      err <- UpdateClickCount shortCode ;;
      match err with
      | Some err =>
          fmt_Printf ("Failed to update click count: " ++ Error err ++ LF)
      | None => ret tt
      end ;;;
      ret (Ok (OriginalURL shortURL))
  end.

Definition GetStats (s : URLService) (shortCode : string)
  : M (result ShortURL) :=
  r <- repo_GetStats shortCode ;;
  match r with
  | Err _ => ret (Err ErrURLNotFound)
  | Ok shortURL => ret (Ok shortURL)
  end.
End URLServiceCode.

(** ** internal/handlers/url_handler.go *)

Inductive Response : Type :=
| JSON (status : Z) (error_text : string)
| Redirect (status : Z) (location : string).

Definition status_of (r : Response) : Z :=
  match r with JSON st _ => st | Redirect st _ => st end.

Definition StatusTemporaryRedirect : Z := 307.
Definition StatusBadRequest : Z := 400.
Definition StatusNotFound : Z := 404.
Definition StatusGone : Z := 410.
Definition StatusInternalServerError : Z := 500.

Record URLHandler : Type := mkURLHandler {
  urlService : URLService
}.

Definition RedirectURL {P : Platform} (h : URLHandler) (shortCode : string)
  : M Response :=
  if String.eqb shortCode "" then
    ret (JSON StatusBadRequest "short code is needed")
  else
    r <- GetOriginalURL (urlService h) shortCode ;;
    match r with
    | Err err =>
        if error_eqb err ErrURLNotFound then
          ret (JSON StatusNotFound "URL not found")
        else if error_eqb err ErrURLExpired then
          ret (JSON StatusGone "URL has expired")
        else if error_eqb err ErrURLInactive then
          ret (JSON StatusGone "URL is inactive")
        else
          ret (JSON StatusInternalServerError "Failed to redirect URL")
    | Ok originalURL => ret (Redirect StatusTemporaryRedirect originalURL)
    end.

(** ** A platform to run the code on

    The properties below hold on every [Platform].  To evaluate the code on
    concrete requests a parser is needed: [net_url_Parse] follows Go's
    net/url for what the validators read (fragment and query are cut off,
    [getScheme] finds the scheme, a leading double slash introduces the
    authority, whose part after the last at-sign is the host).  The checks
    net/url makes on ports, escapes and bracketed hosts, and the lowering of
    the scheme's case, are left out. *)

Definition is_letter (c : ascii) : bool :=
  let n := nat_of_ascii c in
  ((97 <=? n) && (n <=? 122) || (65 <=? n) && (n <=? 90))%nat.

Definition is_scheme_punct (c : ascii) : bool :=
  let n := nat_of_ascii c in
  ((48 <=? n) && (n <=? 57))%nat
  || Ascii.eqb c "+" || Ascii.eqb c "-" || Ascii.eqb c ".".

(** [getScheme]: [None] is the error "missing protocol scheme". *)
Fixpoint getScheme_at (i : nat) (rest rawURL : string) : option (string * string) :=
  match rest with
  | EmptyString => Some ("", rawURL)
  | String c rest' =>
      if is_letter c then getScheme_at (S i) rest' rawURL
      else if is_scheme_punct c then
        if (i =? 0)%nat then Some ("", rawURL) else getScheme_at (S i) rest' rawURL
      else if Ascii.eqb c ":" then
        if (i =? 0)%nat then None else Some (substring 0 i rawURL, rest')
      else Some ("", rawURL)
  end.

Definition getScheme (rawURL : string) : option (string * string) :=
  getScheme_at 0 rawURL rawURL.

(** [strings.Cut(s, sep)] for a one-character separator, first component. *)
Fixpoint cut_before (sep : ascii) (s : string) : string :=
  match s with
  | EmptyString => EmptyString
  | String c rest => if Ascii.eqb c sep then EmptyString
                     else String c (cut_before sep rest)
  end.

Fixpoint after_last (sep : ascii) (s : string) : string :=
  match s with
  | EmptyString => EmptyString
  | String c rest =>
      if ContainsRune rest sep then after_last sep rest
      else if Ascii.eqb c sep then rest else s
  end.

Fixpoint ContainsCTLByte (s : string) : bool :=
  match s with
  | EmptyString => false
  | String c rest =>
      let n := nat_of_ascii c in
      (n <? 32)%nat || (n =? 127)%nat || ContainsCTLByte rest
  end.

Definition net_url_Parse (rawURL : string) : option URL :=
  let u := cut_before "#" rawURL in
  if ContainsCTLByte u then None
  else if String.eqb u "*" then Some (mkURL "" "")
  else
    match getScheme u with
    | None => None
    | Some (scheme, rest) =>
        let rest := cut_before "?" rest in
        if negb (prefix "/" rest) && negb (String.eqb scheme "") then
          Some (mkURL scheme "")                       (* opaque *)
        else if negb (prefix "/" rest)
                && ContainsRune (cut_before "/" rest) ":" then
          None            (* first path segment cannot contain a colon *)
        else if (negb (String.eqb scheme "") || negb (prefix "///" rest))
                && prefix "//" rest then
          let authority :=
            cut_before "/" (substring 2 (length rest - 2) rest) in
          Some (mkURL scheme (after_last "@" authority))
        else Some (mkURL scheme "")
    end.

Definition demo_byte (k i : nat) : byte :=
  match Byte.of_nat ((37 * k + 101 * i + 5) mod 256) with
  | Some b => b
  | None => x00
  end.

(** Clock readings one unit apart from instant 1000, and network calls that
    fail exactly at the positions listed in [faults]. *)
Definition demo (faults : list nat) : Platform :=
  {| url_Parse := net_url_Parse;
     clock := fun n => 1000 + Z.of_nat n;
     entropy := demo_byte;
     io_fault := fun n => if existsb (Nat.eqb n) faults
                          then Some "connection reset" else None |}.

Definition empty_world : World := mkWorld [] 0 [] [] 0 0 0.

Definition demo_service : URLService :=
  mkURLService (mkKeyService (Some "localhost:6379") "http://localhost:8081" "short_codes").

Definition demo_handler : URLHandler := mkURLHandler demo_service.

Definition example_com : string := "https://example.com/very/long/path".
Definition example_org : string := "https://example.org/new".

(** Three stored records: one live without expiry, one switched off whose
    expiry has also passed, one active whose expiry has passed. *)
Definition live_record : ShortURL :=
  mkShortURL 1 example_com "abc12345" 900 None 0 true.
Definition off_record : ShortURL :=
  mkShortURL 2 "https://example.net/off" "off00000" 900 (Some 950) 3 false.
Definition old_record : ShortURL :=
  mkShortURL 3 "https://example.net/old" "old00000" 900 (Some 950) 7 true.

Definition store_world : World :=
  mkWorld [live_record; off_record; old_record] 3
          ["pool0001"; "pool0002"] [] 0 0 0.

(** The platform whose first network call fails, and two consecutive
    requests to shorten [example_com] on it, starting from [store_world]. *)
Definition flaky : Platform := demo [0%nat].

Definition first_call : result ShortURL * World :=
  ShortenURL (P := flaky) demo_service example_com None store_world.

Definition second_call : result ShortURL * World :=
  ShortenURL (P := flaky) demo_service example_com None (snd first_call).

(** Two consecutive requests to shorten [example_org] when no call fails. *)
Definition first_new : result ShortURL * World :=
  ShortenURL (P := demo []) demo_service example_org None store_world.

Definition second_new : result ShortURL * World :=
  ShortenURL (P := demo []) demo_service example_org None (snd first_new).

(** ** Vocabulary of the statements *)

Fixpoint all_chars (p : ascii -> bool) (s : string) : bool :=
  match s with
  | EmptyString => true
  | String c rest => p c && all_chars p rest
  end.

(** The characters a path segment of a URL may carry unescaped and that
    base64's URL alphabet uses: letters, digits, hyphen and underscore. *)
Definition url_safe (c : ascii) : bool :=
  let n := nat_of_ascii c in
  is_letter c || ((48 <=? n) && (n <=? 57))%nat
  || Ascii.eqb c "-" || Ascii.eqb c "_".

(** The world in which [GetOriginalURL] issues the increment for the record
    [r] it looked up: after the lookup, and after the clock reading when the
    record has an expiry. *)
Definition at_increment {P : Platform} (code : string) (r : ShortURL)
           (w : World) : World :=
  match ExpiresAt r with
  | Some _ => snd (time_Now (snd (GetShortURLByCode code w)))
  | None => snd (GetShortURLByCode code w)
  end.

(** The outcome of one operation of the link registry, as a state change. *)
Inductive Op : Type :=
| CreateShortLink (originalURL : string) (expiresAfter : option time_Duration)
| ResolveShortLink (code : string)
| GetStatsOf (code : string).

Definition run_op {P : Platform} (s : URLService) (op : Op) (w : World) : World :=
  match op with
  | CreateShortLink u e => snd (ShortenURL s u e w)
  | ResolveShortLink c => snd (GetOriginalURL s c w)
  | GetStatsOf c => snd (GetStats s c w)
  end.

Definition run_ops {P : Platform} (s : URLService) (ops : list Op) (w : World) : World :=
  fold_left (fun w op => run_op s op w) ops w.

(** [d'] is [d] with its click counter kept or raised by one. *)
Definition same_or_clicked (d d' : ShortURL) : Prop :=
  d' = d \/ d' = with_ClickCount (ClickCount d + 1) d.

Definition clicks_nonneg (docs : list ShortURL) : Prop :=
  Forall (fun d => 0 <= ClickCount d) docs.

(** ** internal/handlers: the other handlers

    A handler that answers with a JSON body on success returns a [Reply]:
    [Body] is [c.JSON(status, body)] and [Failure] is
    [c.JSON(status, gin.H{"error": text})]. *)

Inductive Reply (B : Type) : Type :=
| Body (status : Z) (body : B)
| Failure (status : Z) (error_text : string).
Arguments Body {B} status body.
Arguments Failure {B} status error_text.

Definition reply_status {B} (r : Reply B) : Z :=
  match r with Body st _ => st | Failure st _ => st end.

Definition StatusOK : Z := 200.

(** key_handler.go *)
Record KeyHandler : Type := mkKeyHandler {
  handler_keyService : KeyService      (* keyService *services.KeyService *)
}.

Record GenerateResponse : Type := mkGenerateResponse {
  generated_ShortCode : string         (* json:"short_code" *)
}.

Definition GenerateKey {P : Platform} (h : KeyHandler) : M (Reply GenerateResponse) :=
  shortCode <- GenerateShortCode (handler_keyService h) ;;
  ret (Body StatusOK (mkGenerateResponse shortCode)).

(** url_handler.go *)
Record ShortenURLRequest : Type := mkShortenURLRequest {
  request_URL : string;                (* json:"url" binding:"required,url" *)
  request_ExpiresIn : option Z         (* *int, json:"expires_in" *)
}.

Record ShortenResponse : Type := mkShortenResponse {
  response_ShortURL : string;
  response_ShortCode : string;
  response_OriginalURL : string;
  response_ExpiresAt : option string
}.

(** The outcome of [c.ShouldBindJSON(&req)], which gin decides. *)
Inductive ShouldBindJSON : Type :=
| BindError (text : string)
| Bound (req : ShortenURLRequest).

(** [time.Hour], in nanoseconds, and the product of two [int64] values. *)
Definition time_Hour : time_Duration := 3600000000000.

Definition wrap_int64 (z : Z) : Z := (z + 2 ^ 63) mod 2 ^ 64 - 2 ^ 63.

Definition int64_mul (a b : Z) : Z := wrap_int64 (a * b).

Section URLHandlerCode.
Context {P : Platform}.
(** [t.Format(time.RFC3339)]: the text depends on the calendar and on the
    zone of the instant and is left to the caller of the model. *)
Variable Format_RFC3339 : time_Time -> string.

Definition URLHandler_ShortenURL (h : URLHandler) (bind_result : ShouldBindJSON)
  : M (Reply ShortenResponse) :=
  match bind_result with
  | BindError text => ret (Failure StatusBadRequest text)
  | Bound req =>
      let expiresIn :=
        match request_ExpiresIn req with
        | Some hours => Some (int64_mul hours time_Hour)
        | None => None
        end in
      r <- ShortenURL (urlService h) (request_URL req) expiresIn ;;
      match r with
      | Err err =>
          if error_eqb err ErrInvalidURL then
            ret (Failure StatusBadRequest "Invalid URL")
          else
            ret (Failure StatusInternalServerError "Failed to shorten URL")
      | Ok shortURL =>
          let expiresAtStr :=
            match ExpiresAt shortURL with
            | Some expiresAt => Some (Format_RFC3339 expiresAt)
            | None => None
            end in
          ret (Body StatusOK
                 (mkShortenResponse
                    ("http://localhost:8080/" ++ ShortCode shortURL)
                    (ShortCode shortURL)
                    (OriginalURL shortURL)
                    expiresAtStr))
      end
  end.
End URLHandlerCode.


(** ** models.HealthCheck and the health-check repository

    The repository has a collection of its own.  Its two methods are
    modelled on that collection directly: the state is passed explicitly and
    the failure of the round trip, if any, is an argument. *)

Record HealthCheck : Type := mkHealthCheck {
  health_ID : Z;                       (* primitive.ObjectID; 0 is the nil id *)
  health_Status : string;
  CheckedAt : time_Time;
  health_Message : string
}.

Record HealthStore : Type := mkHealthStore {
  health_checks : list HealthCheck;
  health_objectIDs : nat
}.


(** [FindOne] with the sort [{checked_at: -1}]: a document whose
    [checked_at] is the largest; among several such, the model takes the
    one stored first. *)
Fixpoint latest_check (docs : list HealthCheck) : option HealthCheck :=
  match docs with
  | [] => None
  | d :: rest =>
      match latest_check rest with
      | Some m => if CheckedAt d <? CheckedAt m then Some m else Some d
      | None => Some d
      end
  end.

Definition GetLatestHealthCheck (fault : option string) (st : HealthStore)
  : result (option HealthCheck) :=
  match fault with
  | Some msg => Err (IOError msg)
  | None =>
      match latest_check (health_checks st) with
      | None => Ok None                (* mongo.ErrNoDocuments: nil, nil *)
      | Some healthCheck => Ok (Some healthCheck)
      end
  end.

(** ** internal/validators: the pattern of [IsValidURLRegex]

    [urlRegex.MatchString(str)] reports whether [str] contains a match of
    the pattern.  The pattern is anchored at both ends, so this is whether
    the whole of [str] belongs to the language of the pattern between the
    anchors; membership is decided here by Brzozowski derivatives.  Every
    class of the pattern but the last is a set of ASCII characters, and the
    last, every character but the slash, holds of each byte of a multi-byte
    character, so matching bytes and matching characters agree. *)

Inductive regex : Type :=
| Void                              (* no string *)
| Eps                               (* the empty string *)
| Class (p : ascii -> bool)         (* one character of a class *)
| Cat (r1 r2 : regex)
| Alt (r1 r2 : regex)
| Star (r : regex).

Fixpoint nullable (r : regex) : bool :=
  match r with
  | Void => false
  | Eps => true
  | Class _ => false
  | Cat r1 r2 => nullable r1 && nullable r2
  | Alt r1 r2 => nullable r1 || nullable r2
  | Star _ => true
  end.

Fixpoint deriv (c : ascii) (r : regex) : regex :=
  match r with
  | Void => Void
  | Eps => Void
  | Class p => if p c then Eps else Void
  | Cat r1 r2 =>
      if nullable r1
      then Alt (Cat (deriv c r1) r2) (deriv c r2)
      else Cat (deriv c r1) r2
  | Alt r1 r2 => Alt (deriv c r1) (deriv c r2)
  | Star r1 => Cat (deriv c r1) (Star r1)
  end.

Fixpoint regex_match (r : regex) (s : string) : bool :=
  match s with
  | EmptyString => nullable r
  | String c rest => regex_match (deriv c r) rest
  end.

Fixpoint literal (s : string) : regex :=
  match s with
  | EmptyString => Eps
  | String c rest => Cat (Class (Ascii.eqb c)) (literal rest)
  end.

Definition is_digit (c : ascii) : bool :=
  let n := nat_of_ascii c in ((48 <=? n) && (n <=? 57))%nat.

(** The class of letters, digits, hyphen and dot. *)
Definition host_char (c : ascii) : bool :=
  is_letter c || is_digit c || Ascii.eqb c "-" || Ascii.eqb c ".".

(** The class of every character but the slash. *)
Definition not_slash (c : ascii) : bool := negb (Ascii.eqb c "/").

(** The pattern of [urlRegex], between its anchors: "http" or "https";
    "://"; one or more characters of the host class; a dot; two or more
    letters; then any number of groups made of a slash followed by any
    number of characters other than the slash. *)
Definition urlRegex : regex :=
  Cat (Alt (literal "http") (literal "https"))
 (Cat (literal "://")
 (Cat (Cat (Class host_char) (Star (Class host_char)))
 (Cat (Class (Ascii.eqb "."))
 (Cat (Cat (Class is_letter) (Cat (Class is_letter) (Star (Class is_letter))))
      (Star (Cat (Class (Ascii.eqb "/")) (Star (Class not_slash)))))))).

Definition IsValidURLRegex (str : string) : bool := regex_match urlRegex str.

(** The strings of a pattern. *)
Inductive Matches : regex -> string -> Prop :=
| MEps : Matches Eps ""
| MClass (p : ascii -> bool) (c : ascii) :
    p c = true -> Matches (Class p) (String c "")
| MCat (r1 r2 : regex) (s1 s2 : string) :
    Matches r1 s1 -> Matches r2 s2 -> Matches (Cat r1 r2) (s1 ++ s2)
| MAltL (r1 r2 : regex) (s : string) : Matches r1 s -> Matches (Alt r1 r2) s
| MAltR (r1 r2 : regex) (s : string) : Matches r2 s -> Matches (Alt r1 r2) s
| MStar0 (r : regex) : Matches (Star r) ""
| MStarS (r : regex) (s1 s2 : string) :
    Matches r s1 -> Matches (Star r) s2 -> Matches (Star r) (s1 ++ s2).


(** ** Further examples to run the code on *)

(** A pool whose head is the empty string. *)
Definition blank_pool_world : World :=
  mkWorld [] 0 [""; "pool0003"] [] 0 0 0.

(** A pool whose head is the code of a stored record. *)
Definition collide_world : World :=
  mkWorld [live_record] 1 ["abc12345"; "pool0004"] [] 0 0 0.

Definition expired_new : result ShortURL * World :=
  ShortenURL (P := demo []) demo_service example_org (Some (-3600)) store_world.

Definition demo_Format (t : time_Time) : string := "1970-01-01T00:00:00Z".

Definition plain_request : ShortenURLRequest :=
  mkShortenURLRequest example_org None.

(** A request to keep a link for 2562048 hours, a little over 292 years. *)
Definition long_request : ShortenURLRequest :=
  mkShortenURLRequest example_org (Some 2562048).

Definition two_checks : HealthStore :=
  mkHealthStore [mkHealthCheck 1 "ok" 500 "first";
                 mkHealthCheck 2 "ok" 700 "second"] 2.


(** ** Further vocabulary *)

(** [d'] is the record [d] at a later time: nothing but the click counter
    differs, and the counter has not gone down. *)
Definition same_record (d d' : ShortURL) : Prop :=
  ID d' = ID d /\ OriginalURL d' = OriginalURL d /\ ShortCode d' = ShortCode d
  /\ CreatedAt d' = CreatedAt d /\ ExpiresAt d' = ExpiresAt d
  /\ IsActive d' = IsActive d /\ ClickCount d <= ClickCount d'.

(** The collection [docs'] is [docs] at a later time: every record is still
    there, in place, and records may have been added after them. *)
Definition grows (docs docs' : list ShortURL) : Prop :=
  exists kept fresh,
    docs' = (kept ++ fresh)%list /\ Forall2 same_record docs kept.

Definition codes_unique (docs : list ShortURL) : Prop :=
  NoDup (map ShortCode docs).

Definition ids_unique (docs : list ShortURL) : Prop :=
  NoDup (map ID docs).

(** [n] calls of [GetShortCode] in a row, with the codes they return. *)
Fixpoint draw_codes {P : Platform} (s : KeyService) (n : nat) : M (list string) :=
  match n with
  | O => ret []
  | S n' =>
      r <- GetShortCode s ;;
      rest <- draw_codes s n' ;;
      ret (match r with Ok code => code :: rest | Err _ => rest end)
  end.

Definition never_fails {P : Platform} : Prop := forall n, io_fault n = None.

Definition clock_monotone {P : Platform} : Prop :=
  forall m n, (m <= n)%nat -> clock m <= clock n.

(** * Properties *)

(** ** The code generator *)

Lemma encode_url_safe (i : Z) :
  0 <= i < 64 -> url_safe (encode i) = true.
Proof.
  intros Hi. unfold encode.
  assert (Hn : (Z.to_nat i < 64)%nat) by lia.
  remember (Z.to_nat i) as n eqn:En. clear En Hi.
  do 64 (destruct n as [|n]; [reflexivity|]). lia.
Qed.

Lemma low6_range (v : Z) : 0 <= Z.land v 63 < 64.
Proof.
  change 63 with (Z.ones 6). rewrite Z.land_ones by lia.
  apply Z.mod_pos_bound. reflexivity.
Qed.

Lemma url_safe_not_padding (c : ascii) :
  url_safe c = true -> ContainsRune "=" c = false.
Proof.
  intros H. simpl. rewrite orb_false_r.
  destruct (Ascii.eqb c "=") eqn:E; [|reflexivity].
  apply Ascii.eqb_eq in E. subst c. discriminate H.
Qed.

Lemma TrimRight_nothing (cutset s : string) :
  all_chars (fun c => negb (ContainsRune cutset c)) s = true ->
  TrimRight s cutset = s.
Proof.
  induction s as [|c rest IH]; simpl; [reflexivity|].
  intros H. apply andb_true_iff in H. destruct H as [Hc Hrest].
  rewrite (IH Hrest). apply negb_true_iff in Hc. rewrite Hc.
  destruct rest; reflexivity.
Qed.

Lemma all_chars_impl (p q : ascii -> bool) (s : string) :
  (forall c, p c = true -> q c = true) ->
  all_chars p s = true -> all_chars q s = true.
Proof.
  intros Hpq. induction s as [|c rest IH]; simpl; [reflexivity|].
  intros H. apply andb_true_iff in H. destruct H as [Hc Hrest].
  rewrite (Hpq _ Hc), (IH Hrest). reflexivity.
Qed.

(** Six bytes encode to eight characters of the URL alphabet, with no
    padding. *)
Lemma EncodeToString_six (b0 b1 b2 b3 b4 b5 : byte) :
  let encoded := EncodeToString [b0; b1; b2; b3; b4; b5] in
  length encoded = 8%nat /\ all_chars url_safe encoded = true.
Proof.
  unfold EncodeToString. cbn [base64_Encode string_of_list_ascii length all_chars].
  split; [reflexivity|].
  rewrite !encode_url_safe; first [reflexivity | apply low6_range].
Qed.

Section CodeGenerator.
Context {P : Platform}.

(** C8. A locally generated code is the URL-safe base64 text of six bytes
    read from crypto/rand, with trailing padding removed and cut to eight
    characters; it has exactly eight characters (so between six and eight),
    all of them URL-safe, and one read of the random source is made. *)
Theorem generateShortCode_shape (s : KeyService) (w : World) :
  List.length (map (entropy (rand_reads w)) (seq 0 6)) = 6%nat
  /\ fst (generateShortCode s w)
     = (if (8 <? length (TrimRight
                           (EncodeToString
                              (map (entropy (rand_reads w)) (seq 0 6))) "="))%nat
        then substring 0 8 (TrimRight
                              (EncodeToString
                                 (map (entropy (rand_reads w)) (seq 0 6))) "=")
        else TrimRight
               (EncodeToString (map (entropy (rand_reads w)) (seq 0 6))) "=")
  /\ length (fst (generateShortCode s w)) = 8%nat
  /\ (6 <= length (fst (generateShortCode s w)) <= 8)%nat
  /\ all_chars url_safe (fst (generateShortCode s w)) = true
  /\ rand_reads (snd (generateShortCode s w)) = S (rand_reads w).
Proof.
  cbv zeta.
  assert (Hcode : fst (generateShortCode s w)
                  = (let stripped :=
                       TrimRight (EncodeToString
                                    (map (entropy (rand_reads w)) (seq 0 6))) "=" in
                     if (8 <? length stripped)%nat then substring 0 8 stripped
                     else stripped)).
  { unfold generateShortCode, bind, rand_Read, ret. cbv zeta.
    destruct (8 <? _)%nat; reflexivity. }
  assert (Hreads : rand_reads (snd (generateShortCode s w)) = S (rand_reads w)).
  { unfold generateShortCode, bind, rand_Read, ret. cbv zeta.
    destruct (8 <? _)%nat; reflexivity. }
  rewrite Hcode. cbv zeta. cbn [seq map].
  destruct (EncodeToString_six
              (entropy (rand_reads w) 0%nat) (entropy (rand_reads w) 1%nat)
              (entropy (rand_reads w) 2%nat) (entropy (rand_reads w) 3%nat)
              (entropy (rand_reads w) 4%nat) (entropy (rand_reads w) 5%nat))
    as [Hlen Hsafe].
  cbv zeta in Hlen, Hsafe.
  rewrite TrimRight_nothing.
  2:{ eapply all_chars_impl; [|exact Hsafe].
      intros c Hc. rewrite (url_safe_not_padding c Hc). reflexivity. }
  rewrite Hlen. cbn [Nat.ltb Nat.leb].
  repeat split; try assumption; try lia.
Qed.

Lemma generateShortCode_frame (s : KeyService) (w : World) :
  collection (snd (generateShortCode s w)) = collection w
  /\ queue (snd (generateShortCode s w)) = queue w
  /\ stdout (snd (generateShortCode s w)) = stdout w
  /\ clock_reads (snd (generateShortCode s w)) = clock_reads w
  /\ io_calls (snd (generateShortCode s w)) = io_calls w
  /\ objectIDs (snd (generateShortCode s w)) = objectIDs w.
Proof.
  unfold generateShortCode, bind, rand_Read, ret. cbv zeta.
  destruct (8 <? _)%nat; simpl; repeat split.
Qed.

(** The pop of the pool, case by case. *)
Lemma getFromRedisQueue_run (s : KeyService) (w : World) :
  getFromRedisQueue s w =
  match redisClient s with
  | None => (Err ErrRedisUnavailable, w)
  | Some _ =>
      match io_fault (io_calls w) with
      | Some msg =>
          (Err (Errorf "failed to get short code from redis" (IOError msg)),
           snd (round_trip w))
      | None =>
          match queue w with
          | [] => (Ok "", snd (round_trip w))
          | head :: rest => (Ok head, set_queue rest (snd (round_trip w)))
          end
      end
  end.
Proof.
  unfold getFromRedisQueue, LPop, bind, round_trip, ret.
  destruct (redisClient s); [|reflexivity].
  destruct (io_fault (io_calls w)); simpl; [reflexivity|].
  destruct (queue w); reflexivity.
Qed.

Lemma local_code_after (s : KeyService) (w w1 : World) :
  rand_reads w1 = rand_reads w -> queue w1 = queue w ->
  fst ((shortCode <- generateShortCode s ;; ret (Ok shortCode)) w1)
    = Ok (fst (generateShortCode s w))
  /\ queue (snd ((shortCode <- generateShortCode s ;; ret (Ok shortCode)) w1))
     = queue w.
Proof.
  intros Hr Hq. unfold bind, ret.
  pose proof (generateShortCode_frame s w1) as F.
  assert (Hc : fst (generateShortCode s w1) = fst (generateShortCode s w)).
  { unfold generateShortCode, bind, rand_Read, ret. cbv zeta. rewrite Hr.
    destruct (8 <? _)%nat; reflexivity. }
  destruct (generateShortCode s w1) as [c w2]. simpl in *.
  rewrite Hc. split; [reflexivity|]. destruct F as (_ & F & _). congruence.
Qed.

(** C7. [GetShortCode] always returns a code and no error.  Without a
    Redis client, when the pop fails, or when the pool is empty, the code is
    the locally generated one and the pool is left as it was.  When the pop
    succeeds with a non-empty code, that code is returned, the pool loses
    exactly its head, and no local code is generated. *)
Theorem GetShortCode_never_fails (s : KeyService) (w : World) :
  (exists code, fst (GetShortCode s w) = Ok code)
  /\ (redisClient s = None \/ io_fault (io_calls w) <> None \/ queue w = [] ->
      fst (GetShortCode s w) = Ok (fst (generateShortCode s w))
      /\ queue (snd (GetShortCode s w)) = queue w)
  /\ (forall code rest,
        redisClient s <> None -> io_fault (io_calls w) = None ->
        queue w = code :: rest -> code <> "" ->
        fst (GetShortCode s w) = Ok code
        /\ queue (snd (GetShortCode s w)) = rest
        /\ rand_reads (snd (GetShortCode s w)) = rand_reads w).
Proof.
  unfold GetShortCode, bind. rewrite getFromRedisQueue_run.
  split; [|split].
  - destruct (redisClient s); [destruct (io_fault (io_calls w));
      [|destruct (queue w) as [|c rest]; [|destruct (String.eqb c "") eqn:E]]|];
      simpl; try rewrite E; simpl; unfold bind, ret;
      try (destruct (generateShortCode s _)); eexists; reflexivity.
  - intros Hmiss.
    destruct (redisClient s);
      [destruct (io_fault (io_calls w)) eqn:Hio;
       [|destruct (queue w) as [|c rest] eqn:Hq]|].
    + exact (local_code_after s w (snd (round_trip w)) eq_refl eq_refl).
    + pose proof (local_code_after s w (snd (round_trip w)) eq_refl eq_refl) as L.
      rewrite Hq in L. exact L.
    + destruct Hmiss as [H|[H|H]]; [discriminate H | | discriminate H].
      exfalso. apply H. reflexivity.
    + exact (local_code_after s w w eq_refl eq_refl).
  - intros code rest Hclient Hio Hq Hne.
    destruct (redisClient s); [|exfalso; apply Hclient; reflexivity].
    rewrite Hio, Hq.
    destruct (String.eqb code "") eqn:E.
    + apply String.eqb_eq in E. contradiction.
    + simpl. repeat split.
Qed.
End CodeGenerator.

(** ** Resolving a short code *)

Ltac unfold_registry :=
  unfold RedirectURL, GetOriginalURL, GetStats, repo_GetStats,
    GetShortURLByCode, GetShortURLByOriginal, UpdateClickCount,
    UpdateOne_inc, FindOne, round_trip, time_Now, fmt_Printf,
    bind, ret, set_collection in *.

Section Resolve.
Context {P : Platform}.

(** The lookup by code returns a record exactly when the round trip to the
    store succeeds and the record is the first one carrying the code. *)
Lemma GetShortURLByCode_found (code : string) (w : World) (r : ShortURL) :
  fst (GetShortURLByCode code w) = Ok r <->
  io_fault (io_calls w) = None
  /\ find (by_short_code code) (collection w) = Some r.
Proof.
  unfold_registry. simpl.
  destruct (io_fault (io_calls w)); simpl.
  - split; [discriminate | intros [H _]; discriminate H].
  - destruct (find (by_short_code code) (collection w)); simpl.
    + split; [intros H; inversion H; auto | intros [_ H]; inversion H; auto].
    + split; [discriminate | intros [_ H]; discriminate H].
Qed.

Lemma GetShortURLByCode_frame (code : string) (w : World) :
  snd (GetShortURLByCode code w) = snd (round_trip w).
Proof.
  unfold_registry. simpl.
  destruct (io_fault (io_calls w)); simpl; [reflexivity|].
  destruct (find (by_short_code code) (collection w)); reflexivity.
Qed.

(** The errors of a resolution and what it leaves untouched. *)
Lemma GetOriginalURL_error_cases
      (s : URLService) (code : string) (w : World) (e : error) :
  fst (GetOriginalURL s code w) = Err e ->
  (e = ErrURLNotFound \/ e = ErrURLInactive \/ e = ErrURLExpired)
  /\ collection (snd (GetOriginalURL s code w)) = collection w
  /\ queue (snd (GetOriginalURL s code w)) = queue w
  /\ stdout (snd (GetOriginalURL s code w)) = stdout w.
Proof.
  unfold_registry. simpl.
  destruct (io_fault (io_calls w)); simpl.
  { intros H; inversion H; auto 6. }
  destruct (find (by_short_code code) (collection w)) as [r|]; simpl.
  2:{ intros H; inversion H; auto 6. }
  destruct (IsActive r); simpl.
  2:{ intros H; inversion H; auto 6. }
  destruct (ExpiresAt r) as [expiresAt|]; simpl.
  - destruct (time_After (clock (clock_reads w)) expiresAt); simpl.
    { intros H; inversion H; auto 6. }
    destruct (io_fault (S (io_calls w))); simpl; [discriminate|].
    destruct (inc_click_count (by_short_code code) (collection w));
      simpl; discriminate.
  - destruct (io_fault (S (io_calls w))); simpl; [discriminate|].
    destruct (inc_click_count (by_short_code code) (collection w));
      simpl; discriminate.
Qed.

(** C1. Resolution fails with NotFound when no record carries the code.
    When the lookup returns a record: an inactive record gives Inactive,
    whatever its expiry (the active flag is tested first); an active record
    whose expiry is set and earlier than the clock reading gives Expired.
    And when the record carrying the code has no expiry, the resolution
    never gives Expired, on any clock and whatever else happens. *)
Theorem GetOriginalURL_checks (s : URLService) (code : string) (w : World) :
  (find (by_short_code code) (collection w) = None ->
   fst (GetOriginalURL s code w) = Err ErrURLNotFound)
  /\ (forall r, fst (GetShortURLByCode code w) = Ok r ->
        (IsActive r = false ->
         fst (GetOriginalURL s code w) = Err ErrURLInactive)
        /\ (IsActive r = true ->
            forall expiresAt, ExpiresAt r = Some expiresAt ->
            expiresAt < clock (clock_reads w) ->
            fst (GetOriginalURL s code w) = Err ErrURLExpired))
  /\ (forall r, find (by_short_code code) (collection w) = Some r ->
        ExpiresAt r = None ->
        fst (GetOriginalURL s code w) <> Err ErrURLExpired).
Proof.
  split; [|split].
  - intros Hnone. unfold_registry. simpl.
    destruct (io_fault (io_calls w)); simpl; [reflexivity|].
    rewrite Hnone. reflexivity.
  - intros r Hr. apply GetShortURLByCode_found in Hr. destruct Hr as [Hio Hfind].
    unfold_registry. simpl. rewrite Hio. simpl. rewrite Hfind. simpl.
    split.
    + intros Hact. rewrite Hact. reflexivity.
    + intros Hact expiresAt Hexp Hlt. rewrite Hact, Hexp. simpl.
      unfold time_After. apply Z.ltb_lt in Hlt. rewrite Hlt. reflexivity.
  - intros r Hfind Hexp. unfold_registry. simpl.
    destruct (io_fault (io_calls w)); simpl; [discriminate|].
    rewrite Hfind. simpl. rewrite Hexp.
    destruct (IsActive r); simpl; [|discriminate].
    destruct (io_fault (S (io_calls w))); simpl; [discriminate|].
    destruct (inc_click_count (by_short_code code) (collection w));
      simpl; discriminate.
Qed.

(** C10. A failed resolution is one of NotFound, Inactive and Expired, and
    it leaves the collection (every record, with its click counter), the
    pool and the log as they were. *)
Theorem GetOriginalURL_failure_frame
        (s : URLService) (code : string) (w : World) (e : error) :
  fst (GetOriginalURL s code w) = Err e ->
  (e = ErrURLNotFound \/ e = ErrURLInactive \/ e = ErrURLExpired)
  /\ collection (snd (GetOriginalURL s code w)) = collection w
  /\ queue (snd (GetOriginalURL s code w)) = queue w
  /\ stdout (snd (GetOriginalURL s code w)) = stdout w.
Proof.
  exact (GetOriginalURL_error_cases s code w e).
Qed.

(** C5. When the lookup returns an active record that is not expired, the
    resolution returns its original URL whether or not the increment of the
    click counter succeeds; an error of the increment is written to the log
    and nothing else happens with it. *)
Theorem GetOriginalURL_survives_failed_increment
        (s : URLService) (code : string) (w : World) (r : ShortURL) :
  fst (GetShortURLByCode code w) = Ok r ->
  IsActive r = true ->
  (forall expiresAt, ExpiresAt r = Some expiresAt ->
                     clock (clock_reads w) <= expiresAt) ->
  fst (GetOriginalURL s code w) = Ok (OriginalURL r)
  /\ (forall err, fst (UpdateClickCount code (at_increment code r w)) = Some err ->
        stdout (snd (GetOriginalURL s code w))
        = (stdout w
           ++ [("Failed to update click count: " ++ Error err ++ LF)%string])%list
        /\ collection (snd (GetOriginalURL s code w)) = collection w)
  /\ (fst (UpdateClickCount code (at_increment code r w)) = None ->
        stdout (snd (GetOriginalURL s code w)) = stdout w).
Proof.
  intros Hr Hact Hfresh. unfold at_increment.
  rewrite GetShortURLByCode_frame.
  apply GetShortURLByCode_found in Hr. destruct Hr as [Hio Hfind].
  unfold_registry. simpl. rewrite Hio. simpl. rewrite Hfind. simpl.
  rewrite Hact. simpl.
  assert (Hnot : match ExpiresAt r with
                 | Some expiresAt =>
                     time_After (clock (clock_reads w)) expiresAt = false
                 | None => True
                 end).
  { destruct (ExpiresAt r) as [expiresAt|]; [|exact I].
    unfold time_After. apply Z.ltb_ge. apply Hfresh. reflexivity. }
  destruct (ExpiresAt r) as [expiresAt|]; simpl; [rewrite Hnot; simpl|];
    (destruct (io_fault (S (io_calls w))); simpl;
     [|destruct (inc_click_count (by_short_code code) (collection w)); simpl]);
    (split; [reflexivity|split]);
    try (intros err0 Herr; inversion Herr; subst; split; reflexivity);
    try (intros Herr; first [discriminate Herr | reflexivity]).
Qed.

(** C6 (what the code does). A failure of the lookup itself reaches the
    caller as [ErrURLNotFound], the very error of a missing record, and the
    handler answers 404 in both cases; its branch for an internal failure
    is never taken. *)
Theorem lookup_failure_reported_as_NotFound
        (h : URLHandler) (code : string) (w : World) (msg : string) :
  code <> "" ->
  io_fault (io_calls w) = Some msg ->
  fst (GetOriginalURL (urlService h) code w) = Err ErrURLNotFound
  /\ fst (RedirectURL h code w) = JSON StatusNotFound "URL not found".
Proof.
  intros Hcode Hio. unfold_registry. simpl.
  apply String.eqb_neq in Hcode. rewrite Hcode, Hio. simpl. split; reflexivity.
Qed.

Lemma RedirectURL_never_internal_error
      (h : URLHandler) (code : string) (w : World) :
  status_of (fst (RedirectURL h code w)) <> StatusInternalServerError.
Proof.
  unfold RedirectURL, bind, ret.
  destruct (String.eqb code ""); [simpl; discriminate|].
  destruct (GetOriginalURL (urlService h) code w) as [[u|e] w'] eqn:E;
    [simpl; discriminate|].
  assert (He : fst (GetOriginalURL (urlService h) code w) = Err e)
    by (rewrite E; reflexivity).
  apply GetOriginalURL_error_cases in He.
  destruct He as [[He|[He|He]] _]; subst e; simpl; discriminate.
Qed.
End Resolve.

(** ** Shortening a URL *)

Section Shorten.
Context {P : Platform}.

Lemma isValidURL_spec (rawURL : string) :
  isValidURL rawURL = true <->
  exists u, url_Parse rawURL = Some u /\ Scheme u <> "" /\ Host u <> "".
Proof.
  unfold isValidURL. destruct (url_Parse rawURL) as [u|].
  - rewrite andb_true_iff, !negb_true_iff, !String.eqb_neq. split.
    + intros [Hs Hh]. exists u. auto.
    + intros [u' [Hu [Hs Hh]]]. inversion Hu. subst u'. auto.
  - split; [discriminate | intros [u [Hu _]]; discriminate Hu].
Qed.

Lemma GetShortURLByOriginal_run (originalURL : string) (w : World) :
  GetShortURLByOriginal originalURL w =
  (match io_fault (io_calls w) with
   | Some msg => Err (IOError msg)
   | None =>
       match find (by_original_url originalURL) (collection w) with
       | Some d => Ok (Some d)
       | None => Ok None
       end
   end, snd (round_trip w)).
Proof.
  unfold_registry. simpl.
  destruct (io_fault (io_calls w)); simpl; [reflexivity|].
  destruct (find (by_original_url originalURL) (collection w)); reflexivity.
Qed.

Lemma GetShortCode_frame (s : KeyService) (w : World) :
  (exists code, fst (GetShortCode s w) = Ok code)
  /\ collection (snd (GetShortCode s w)) = collection w
  /\ stdout (snd (GetShortCode s w)) = stdout w
  /\ clock_reads (snd (GetShortCode s w)) = clock_reads w
  /\ objectIDs (snd (GetShortCode s w)) = objectIDs w.
Proof.
  unfold GetShortCode, bind. rewrite getFromRedisQueue_run.
  destruct (redisClient s);
    [destruct (io_fault (io_calls w));
     [|destruct (queue w) as [|c rest]; [|destruct (String.eqb c "") eqn:E]]|];
    simpl; try rewrite E; simpl; unfold bind, ret;
    try (match goal with
         | |- context [generateShortCode ?s ?w1] =>
             pose proof (generateShortCode_frame s w1) as F;
             destruct (generateShortCode s w1) as [c0 w2]; simpl in *;
             destruct F as (F1 & F2 & F3 & F4 & F5 & F6);
             rewrite F1, F3, F4, F6
         end);
    (split; [eexists; reflexivity | repeat split]).
Qed.

(** What [CreateShortURL] does with the struct [ShortenURL] hands it. *)
Lemma CreateShortURL_fresh
      (originalURL shortCode : string) (expiresAt : option time_Time) (w : World) :
  let filled := mkShortURL 0 originalURL shortCode (clock (clock_reads w))
                           expiresAt 0 true in
  let stored := with_ID (Z.of_nat (S (objectIDs w))) filled in
  let r := CreateShortURL
             (mkShortURL 0 originalURL shortCode 0 expiresAt 0 false) w in
  fst (fst r) = filled
  /\ clock_reads (snd r) = S (clock_reads w)
  /\ stdout (snd r) = stdout w
  /\ ((exists err, snd (fst r) = Some err /\ collection (snd r) = collection w)
      \/ (snd (fst r) = None /\ collection (snd r) = (collection w ++ [stored])%list)).
Proof.
  cbv zeta.
  unfold CreateShortURL, InsertOne, new_ObjectID, round_trip, time_Now,
    bind, ret, set_collection. simpl.
  destruct (io_fault (io_calls w)); simpl.
  - repeat split. left. eexists. split; reflexivity.
  - destruct (violates_unique_index _ (collection w)); simpl.
    + repeat split. left. eexists. split; reflexivity.
    + repeat split. right. split; reflexivity.
Qed.

(** The path of [ShortenURL] taken when the lookup by original URL did not
    return a record: either the call fails and the collection is as before,
    or the new record is appended to it. *)
Lemma ShortenURL_create
      (s : URLService) (originalURL : string)
      (expiresIn : option time_Duration) (w : World) :
  isValidURL originalURL = true ->
  (forall x, fst (GetShortURLByOriginal originalURL w) <> Ok (Some x)) ->
  let out := ShortenURL s originalURL expiresIn w in
  stdout (snd out) = stdout w
  /\ ((exists e, fst out = Err e /\ e <> ErrInvalidURL
                 /\ collection (snd out) = collection w)
      \/ (exists r id,
            fst out = Ok r
            /\ collection (snd out) = (collection w ++ [with_ID id r])%list
            /\ ID r = 0
            /\ OriginalURL r = originalURL
            /\ CreatedAt r
               = clock (match expiresIn with
                        | Some _ => S (clock_reads w)
                        | None => clock_reads w
                        end)
            /\ ExpiresAt r
               = match expiresIn with
                 | Some d => Some (time_Add (clock (clock_reads w)) d)
                 | None => None
                 end
            /\ ClickCount r = 0
            /\ IsActive r = true)).
Proof.
  intros Hvalid Hnone. cbv zeta.
  remember (ShortenURL s originalURL expiresIn w) as out eqn:Hout.
  unfold ShortenURL in Hout. rewrite Hvalid in Hout. cbn [negb] in Hout.
  unfold bind at 1 in Hout.
  destruct (GetShortURLByOriginal originalURL w) as [existing w1] eqn:Hlook.
  assert (Hw1 : w1 = snd (round_trip w)).
  { rewrite GetShortURLByOriginal_run in Hlook. inversion Hlook. reflexivity. }
  assert (Hgo : forall k : M (result ShortURL),
             match existing with
             | Ok (Some existing0) => ret (Ok existing0)
             | _ => k
             end w1 = k w1).
  { intros k. destruct existing as [[x|]|e]; try reflexivity.
    exfalso. apply (Hnone x). reflexivity. }
  rewrite Hgo in Hout. clear Hgo. unfold bind at 1 in Hout.
  pose proof (GetShortCode_frame (keyService s) w1) as F.
  destruct (GetShortCode (keyService s) w1) as [rc w2]. simpl in F.
  destruct F as ([shortCode Hrc] & Fc & Fo & Fk & Fi). subst rc.
  assert (Hk : clock_reads w2 = clock_reads w) by (rewrite Fk, Hw1; reflexivity).
  assert (Hc : collection w2 = collection w) by (rewrite Fc, Hw1; reflexivity).
  assert (Ho : stdout w2 = stdout w) by (rewrite Fo, Hw1; reflexivity).
  destruct expiresIn as [d|].
  - unfold bind at 1, time_Now at 1, ret at 1 in Hout.
    unfold with_ExpiresAt in Hout.
    cbn [ID OriginalURL ShortCode CreatedAt ClickCount IsActive] in Hout.
    unfold bind in Hout.
    match type of Hout with
    | context [CreateShortURL ?su ?w3] =>
        pose proof (CreateShortURL_fresh originalURL shortCode
                      (Some (time_Add (clock (clock_reads w2)) d)) w3) as C;
        cbv zeta in C;
        destruct (CreateShortURL su w3) as [[filled err] w4]
    end.
    cbn [fst snd clock_reads collection stdout objectIDs] in C, Hout.
    destruct C as (Cf & _ & Cs & [[e [Ce Cc]]|[Ce Cc]]); subst err;
      unfold ret in Hout; subst out; cbn [fst snd].
    + split; [congruence|].
      left. eexists. split; [reflexivity|]. split; [discriminate|congruence].
    + split; [congruence|].
      right. exists filled. eexists. split; [reflexivity|].
      subst filled. rewrite Cc, Hc, Hk. cbn. repeat split.
  - unfold bind, ret in Hout.
    pose proof (CreateShortURL_fresh originalURL shortCode None w2) as C.
    cbv zeta in C.
    destruct (CreateShortURL _ w2) as [[filled err] w4].
    cbn [fst snd] in C, Hout.
    destruct C as (Cf & _ & Cs & [[e [Ce Cc]]|[Ce Cc]]); subst err;
      unfold ret in Hout; subst out; cbn [fst snd].
    + split; [congruence|].
      left. eexists. split; [reflexivity|]. split; [discriminate|congruence].
    + split; [congruence|].
      right. exists filled. eexists. split; [reflexivity|].
      subst filled. rewrite Cc, Hc, Hk. cbn. repeat split.
Qed.
(** Clock readings made on that path: one to persist the record, and one
    before it when an expiry is computed. *)
Lemma ShortenURL_clock_reads
      (s : URLService) (originalURL : string)
      (expiresIn : option time_Duration) (w : World) :
  isValidURL originalURL = true ->
  (forall x, fst (GetShortURLByOriginal originalURL w) <> Ok (Some x)) ->
  clock_reads (snd (ShortenURL s originalURL expiresIn w))
  = match expiresIn with
    | Some _ => S (S (clock_reads w))
    | None => S (clock_reads w)
    end.
Proof.
  intros Hvalid Hnone.
  remember (ShortenURL s originalURL expiresIn w) as out eqn:Hout.
  unfold ShortenURL in Hout. rewrite Hvalid in Hout. cbn [negb] in Hout.
  unfold bind at 1 in Hout.
  destruct (GetShortURLByOriginal originalURL w) as [existing w1] eqn:Hlook.
  assert (Hw1 : w1 = snd (round_trip w)).
  { rewrite GetShortURLByOriginal_run in Hlook. inversion Hlook. reflexivity. }
  assert (Hgo : forall k : M (result ShortURL),
             match existing with
             | Ok (Some existing0) => ret (Ok existing0)
             | _ => k
             end w1 = k w1).
  { intros k. destruct existing as [[x|]|e]; try reflexivity.
    exfalso. apply (Hnone x). reflexivity. }
  rewrite Hgo in Hout. clear Hgo. unfold bind at 1 in Hout.
  pose proof (GetShortCode_frame (keyService s) w1) as F.
  destruct (GetShortCode (keyService s) w1) as [rc w2]. simpl in F.
  destruct F as ([shortCode Hrc] & _ & _ & Fk & _). subst rc.
  assert (Hk : clock_reads w2 = clock_reads w) by (rewrite Fk, Hw1; reflexivity).
  destruct expiresIn as [d|].
  - unfold bind at 1, time_Now at 1, ret at 1 in Hout.
    unfold with_ExpiresAt in Hout.
    cbn [ID OriginalURL ShortCode CreatedAt ClickCount IsActive] in Hout.
    unfold bind in Hout.
    match type of Hout with
    | context [CreateShortURL ?su ?w3] =>
        pose proof (CreateShortURL_fresh originalURL shortCode
                      (Some (time_Add (clock (clock_reads w2)) d)) w3) as C;
        cbv zeta in C;
        destruct (CreateShortURL su w3) as [[filled err] w4]
    end.
    cbn [fst snd clock_reads] in C, Hout.
    destruct C as (_ & Ck & _).
    destruct err; unfold ret in Hout; subst out; cbn [fst snd]; congruence.
  - unfold bind, ret in Hout.
    pose proof (CreateShortURL_fresh originalURL shortCode None w2) as C.
    cbv zeta in C.
    destruct (CreateShortURL _ w2) as [[filled err] w4].
    cbn [fst snd] in C, Hout.
    destruct C as (_ & Ck & _).
    destruct err; subst out; cbn [fst snd]; congruence.
Qed.

Lemma ShortenURL_invalid
      (s : URLService) (originalURL : string)
      (expiresIn : option time_Duration) (w : World) :
  isValidURL originalURL = false ->
  ShortenURL s originalURL expiresIn w = (Err ErrInvalidURL, w).
Proof. intros H. unfold ShortenURL. rewrite H. reflexivity. Qed.

Lemma ShortenURL_existing
      (s : URLService) (originalURL : string)
      (expiresIn : option time_Duration) (w : World) (r : ShortURL) :
  isValidURL originalURL = true ->
  fst (GetShortURLByOriginal originalURL w) = Ok (Some r) ->
  ShortenURL s originalURL expiresIn w = (Ok r, snd (round_trip w)).
Proof.
  intros Hvalid Hr. unfold ShortenURL. rewrite Hvalid. cbn [negb].
  unfold bind at 1. rewrite GetShortURLByOriginal_run in *.
  cbn [fst] in Hr. rewrite Hr. reflexivity.
Qed.

Lemma lookup_found_or_not (originalURL : string) (w : World) :
  (exists r, fst (GetShortURLByOriginal originalURL w) = Ok (Some r))
  \/ (forall x, fst (GetShortURLByOriginal originalURL w) <> Ok (Some x)).
Proof.
  destruct (fst (GetShortURLByOriginal originalURL w)) as [[r|]|e].
  - left. exists r. reflexivity.
  - right. discriminate.
  - right. discriminate.
Qed.

(** C3. [ShortenURL] fails with [ErrInvalidURL] exactly when the input does
    not parse to a URL with a non-empty scheme and a non-empty host; on that
    failure the world is untouched (no record, no code drawn, no call made);
    and the validators package decides validity the same way. *)
Theorem ShortenURL_InvalidURL_iff
        (s : URLService) (rawURL : string)
        (expiresIn : option time_Duration) (w : World) :
  (fst (ShortenURL s rawURL expiresIn w) = Err ErrInvalidURL <->
   ~ (exists u, url_Parse rawURL = Some u /\ Scheme u <> "" /\ Host u <> ""))
  /\ (fst (ShortenURL s rawURL expiresIn w) = Err ErrInvalidURL ->
      snd (ShortenURL s rawURL expiresIn w) = w)
  /\ IsValidURL rawURL = isValidURL rawURL.
Proof.
  assert (Hvalid_ok : isValidURL rawURL = true ->
                      fst (ShortenURL s rawURL expiresIn w) <> Err ErrInvalidURL).
  { intros Hvalid.
    destruct (lookup_found_or_not rawURL w) as [[r Hr]|Hnone].
    - rewrite (ShortenURL_existing s rawURL expiresIn w r Hvalid Hr).
      discriminate.
    - destruct (ShortenURL_create s rawURL expiresIn w Hvalid Hnone)
        as (_ & [(e & He & Hne & _)|(r & id & Hr & _)]).
      + rewrite He. intros H. inversion H. contradiction.
      + rewrite Hr. discriminate. }
  split; [|split].
  - rewrite <- isValidURL_spec. split.
    + intros Hfail Hvalid. exact (Hvalid_ok Hvalid Hfail).
    + intros Hinvalid. rewrite ShortenURL_invalid; [reflexivity|].
      destruct (isValidURL rawURL); [exfalso; auto | reflexivity].
  - intros Hfail. destruct (isValidURL rawURL) eqn:Hvalid.
    + exfalso. exact (Hvalid_ok eq_refl Hfail).
    + rewrite ShortenURL_invalid by assumption. reflexivity.
  - reflexivity.
Qed.

Lemma find_app_none {A} (f : A -> bool) (l l' : list A) :
  find f l = None -> find f (l ++ l')%list = find f l'.
Proof.
  induction l as [|a l IH]; simpl; [reflexivity|].
  destruct (f a); [discriminate | exact IH].
Qed.

(** C2 (amended). Provided the lookup by original URL does not fail: when
    a record with the URL exists, [ShortenURL] returns that record and
    leaves the collection and the pool as they were, draws no random bytes
    and allocates no id; and of two consecutive successful calls for the
    same URL, the second returns the short code of the first and creates
    nothing. *)
Theorem ShortenURL_idempotent_when_lookup_succeeds
        (s : URLService) (originalURL : string) (w : World) :
  isValidURL originalURL = true ->
  (forall expiresIn r,
      io_fault (io_calls w) = None ->
      find (by_original_url originalURL) (collection w) = Some r ->
      fst (ShortenURL s originalURL expiresIn w) = Ok r
      /\ collection (snd (ShortenURL s originalURL expiresIn w)) = collection w
      /\ queue (snd (ShortenURL s originalURL expiresIn w)) = queue w
      /\ rand_reads (snd (ShortenURL s originalURL expiresIn w)) = rand_reads w
      /\ objectIDs (snd (ShortenURL s originalURL expiresIn w)) = objectIDs w)
  /\ (forall expiresIn1 expiresIn2 r1 r2 w1 w2,
        io_fault (io_calls w) = None ->
        ShortenURL s originalURL expiresIn1 w = (Ok r1, w1) ->
        io_fault (io_calls w1) = None ->
        ShortenURL s originalURL expiresIn2 w1 = (Ok r2, w2) ->
        ShortCode r2 = ShortCode r1
        /\ collection w2 = collection w1).
Proof.
  intros Hvalid.
  assert (Hfound : forall expiresIn r v,
             io_fault (io_calls v) = None ->
             find (by_original_url originalURL) (collection v) = Some r ->
             ShortenURL s originalURL expiresIn v = (Ok r, snd (round_trip v))).
  { intros expiresIn r v Hio Hfind. apply ShortenURL_existing; [assumption|].
    rewrite GetShortURLByOriginal_run. cbn [fst]. rewrite Hio, Hfind.
    reflexivity. }
  split.
  - intros expiresIn r Hio Hfind.
    rewrite (Hfound expiresIn r w Hio Hfind). repeat split.
  - intros expiresIn1 expiresIn2 r1 r2 w1 w2 Hio1 Hrun1 Hio2 Hrun2.
    destruct (find (by_original_url originalURL) (collection w)) as [r|] eqn:Hfind.
    + rewrite (Hfound expiresIn1 r w Hio1 Hfind) in Hrun1.
      inversion Hrun1. subst r1 w1.
      rewrite (Hfound expiresIn2 r _ Hio2 Hfind) in Hrun2.
      inversion Hrun2. split; reflexivity.
    + assert (Hlook : forall x, fst (GetShortURLByOriginal originalURL w)
                                <> Ok (Some x)).
      { intros x. rewrite GetShortURLByOriginal_run. cbn [fst].
        rewrite Hio1, Hfind. discriminate. }
      pose proof (ShortenURL_create s originalURL expiresIn1 w Hvalid Hlook) as C.
      cbv zeta in C. rewrite Hrun1 in C. cbn [fst snd] in C.
      destruct C as (_ & [(e & He & _)|(r0 & id & Hr & Hc & _ & Hu & _)]).
      { discriminate He. }
      inversion Hr. subst r0.
      assert (Hfind1 : find (by_original_url originalURL) (collection w1)
                       = Some (with_ID id r1)).
      { rewrite Hc. rewrite find_app_none by exact Hfind.
        cbn. unfold by_original_url. cbn. rewrite Hu, String.eqb_refl.
        reflexivity. }
      rewrite (Hfound expiresIn2 _ w1 Hio2 Hfind1) in Hrun2.
      inversion Hrun2. split; reflexivity.
Qed.

(** ** The click counter *)

Lemma same_or_clicked_refl (docs : list ShortURL) :
  Forall2 same_or_clicked docs docs.
Proof. induction docs; constructor; [left; reflexivity | assumption]. Qed.

Lemma inc_click_count_step (filter : ShortURL -> bool) (docs docs' : list ShortURL) :
  inc_click_count filter docs = Ok docs' ->
  Forall2 same_or_clicked docs docs'.
Proof.
  revert docs'. induction docs as [|d rest IH]; intros docs' H; simpl in H.
  - inversion H. constructor.
  - destruct (filter d).
    + destruct (ClickCount d + 1 <=? max_int64); inversion H.
      constructor; [right; reflexivity | apply same_or_clicked_refl].
    + destruct (inc_click_count filter rest) as [rest'|e]; inversion H.
      constructor; [left; reflexivity | apply IH; reflexivity].
Qed.

Lemma GetOriginalURL_collection (s : URLService) (code : string) (w : World) :
  Forall2 same_or_clicked (collection w)
          (collection (snd (GetOriginalURL s code w))).
Proof.
  unfold_registry. simpl.
  destruct (io_fault (io_calls w)); simpl; [apply same_or_clicked_refl|].
  destruct (find (by_short_code code) (collection w)) as [r|]; simpl;
    [|apply same_or_clicked_refl].
  destruct (IsActive r); simpl; [|apply same_or_clicked_refl].
  destruct (ExpiresAt r) as [expiresAt|]; simpl.
  - destruct (time_After (clock (clock_reads w)) expiresAt); simpl;
      [apply same_or_clicked_refl|].
    destruct (io_fault (S (io_calls w))); simpl;
      [apply same_or_clicked_refl|].
    destruct (inc_click_count (by_short_code code) (collection w)) eqn:E; simpl;
      [apply (inc_click_count_step _ _ _ E) | apply same_or_clicked_refl].
  - destruct (io_fault (S (io_calls w))); simpl;
      [apply same_or_clicked_refl|].
    destruct (inc_click_count (by_short_code code) (collection w)) eqn:E; simpl;
      [apply (inc_click_count_step _ _ _ E) | apply same_or_clicked_refl].
Qed.
Lemma ShortenURL_collection
      (s : URLService) (originalURL : string)
      (expiresIn : option time_Duration) (w : World) :
  exists fresh,
    collection (snd (ShortenURL s originalURL expiresIn w))
    = (collection w ++ fresh)%list
    /\ Forall (fun d => ClickCount d = 0) fresh.
Proof.
  destruct (isValidURL originalURL) eqn:Hvalid.
  - destruct (lookup_found_or_not originalURL w) as [[r Hr]|Hnone].
    + rewrite (ShortenURL_existing s originalURL expiresIn w r Hvalid Hr).
      exists []. rewrite app_nil_r. split; [reflexivity | constructor].
    + destruct (ShortenURL_create s originalURL expiresIn w Hvalid Hnone)
        as (_ & [(e & _ & _ & Hc)|(r & id & _ & Hc & _ & _ & _ & _ & Hn & _)]).
      * exists []. rewrite app_nil_r. split; [exact Hc | constructor].
      * exists [with_ID id r]. split; [exact Hc|].
        constructor; [exact Hn | constructor].
  - rewrite ShortenURL_invalid by assumption.
    exists []. rewrite app_nil_r. split; [reflexivity | constructor].
Qed.

Lemma GetStats_frame (s : URLService) (code : string) (w : World) :
  collection (snd (GetStats s code w)) = collection w.
Proof.
  unfold_registry. simpl.
  destruct (io_fault (io_calls w)); simpl; [reflexivity|].
  destruct (find (by_short_code code) (collection w)); reflexivity.
Qed.

Lemma run_op_step (s : URLService) (op : Op) (w : World) :
  exists kept fresh,
    collection (run_op s op w) = (kept ++ fresh)%list
    /\ Forall2 same_or_clicked (collection w) kept
    /\ Forall (fun d => ClickCount d = 0) fresh.
Proof.
  destruct op as [u e|c|c]; simpl.
  - destruct (ShortenURL_collection s u e w) as (fresh & Hc & Hf).
    exists (collection w), fresh.
    split; [exact Hc | split; [apply same_or_clicked_refl | exact Hf]].
  - exists (collection (snd (GetOriginalURL s c w))), [].
    rewrite app_nil_r.
    split; [reflexivity | split; [apply GetOriginalURL_collection | constructor]].
  - exists (collection w), []. rewrite app_nil_r, GetStats_frame.
    split; [reflexivity | split; [apply same_or_clicked_refl | constructor]].
Qed.

Lemma same_or_clicked_nonneg (docs docs' : list ShortURL) :
  Forall2 same_or_clicked docs docs' ->
  clicks_nonneg docs -> clicks_nonneg docs'.
Proof.
  unfold clicks_nonneg. induction 1 as [|d d' l l' Hd _ IH]; intros Hn.
  - constructor.
  - inversion Hn as [|? ? H0 Hl]. subst. constructor; [|apply IH; assumption].
    destruct Hd as [Hd|Hd]; subst d'; simpl; lia.
Qed.

Lemma run_op_nonneg (s : URLService) (op : Op) (w : World) :
  clicks_nonneg (collection w) -> clicks_nonneg (collection (run_op s op w)).
Proof.
  intros Hn. destruct (run_op_step s op w) as (kept & fresh & Hc & Hk & Hf).
  rewrite Hc. unfold clicks_nonneg. apply Forall_app. split.
  - exact (same_or_clicked_nonneg _ _ Hk Hn).
  - eapply Forall_impl; [|exact Hf]. simpl. intros d Hd. rewrite Hd. lia.
Qed.

(** From a collection whose counters are non-negative (the empty one, for
    instance), no sequence of operations reaches a negative counter. *)
Lemma run_ops_nonneg (s : URLService) (ops : list Op) (w : World) :
  clicks_nonneg (collection w) -> clicks_nonneg (collection (run_ops s ops w)).
Proof.
  unfold run_ops. revert w. induction ops as [|op ops IH]; intros w Hn; simpl.
  - exact Hn.
  - apply IH. apply run_op_nonneg. exact Hn.
Qed.

(** C9. Every operation of the registry (create, resolve, stats) keeps the
    records it found, in place, each with its click counter unchanged or
    raised by exactly one; the records it adds have a click counter of 0;
    hence counters that are non-negative stay non-negative. *)
Theorem clickCount_never_decreases (s : URLService) (op : Op) (w : World) :
  (exists kept fresh,
      collection (run_op s op w) = (kept ++ fresh)%list
      /\ Forall2 same_or_clicked (collection w) kept
      /\ Forall (fun d => ClickCount d = 0) fresh)
  /\ (clicks_nonneg (collection w) ->
      clicks_nonneg (collection (run_op s op w))).
Proof.
  split; [apply run_op_step | apply run_op_nonneg].
Qed.
End Shorten.

(** * Runs on the example platform *)

(** The code generated locally on the example platform. *)
Example generateShortCode_run :
  fst (generateShortCode (P := demo []) (keyService demo_service) empty_world)
  = "BWrPNJn-".
Proof. vm_compute. reflexivity. Qed.

Lemma GetShortCode_never_fails_witness :
  (* the pop fails: local code, pool untouched *)
  (fst (GetShortCode (P := demo [0%nat]) (keyService demo_service) store_world)
   = Ok "BWrPNJn-"
   /\ queue (snd (GetShortCode (P := demo [0%nat]) (keyService demo_service)
                               store_world))
      = ["pool0001"; "pool0002"])
  (* the pool is empty: local code *)
  /\ fst (GetShortCode (P := demo []) (keyService demo_service) empty_world)
     = Ok "BWrPNJn-"
  (* the pop succeeds: the head of the pool, and only it, is consumed *)
  /\ (fst (GetShortCode (P := demo []) (keyService demo_service) store_world)
      = Ok "pool0001"
      /\ queue (snd (GetShortCode (P := demo []) (keyService demo_service)
                                  store_world))
         = ["pool0002"]).
Proof.
  pose proof (GetShortCode_never_fails (P := demo [0%nat])
                (keyService demo_service) store_world) as (_ & Hfail & _).
  pose proof (GetShortCode_never_fails (P := demo [])
                (keyService demo_service) empty_world) as (_ & Hempty & _).
  pose proof (GetShortCode_never_fails (P := demo [])
                (keyService demo_service) store_world) as (_ & _ & Hpop).
  split; [|split].
  - apply Hfail. right. left. discriminate.
  - apply Hempty. right. right. reflexivity.
  - destruct (Hpop "pool0001" ["pool0002"]) as (H1 & H2 & _);
      [discriminate | reflexivity | reflexivity | discriminate |].
    split; assumption.
Defined.

Lemma GetOriginalURL_checks_witness :
  fst (GetOriginalURL (P := demo []) demo_service "nothere" store_world)
  = Err ErrURLNotFound
  (* switched off and past its expiry: Inactive wins *)
  /\ fst (GetOriginalURL (P := demo []) demo_service "off00000" store_world)
     = Err ErrURLInactive
  /\ fst (GetOriginalURL (P := demo []) demo_service "old00000" store_world)
     = Err ErrURLExpired
  /\ fst (GetOriginalURL (P := demo []) demo_service "abc12345" store_world)
     <> Err ErrURLExpired.
Proof.
  split; [|split; [|split]].
  - apply (proj1 (GetOriginalURL_checks (P := demo []) demo_service
                    "nothere" store_world)).
    reflexivity.
  - refine (proj1 (proj1 (proj2 (GetOriginalURL_checks (P := demo [])
                                   demo_service "off00000" store_world))
                     off_record _) _);
      reflexivity.
  - refine (proj2 (proj1 (proj2 (GetOriginalURL_checks (P := demo [])
                                   demo_service "old00000" store_world))
                     old_record _) _ 950 _ _);
      reflexivity.
  - refine (proj2 (proj2 (GetOriginalURL_checks (P := demo [])
                            demo_service "abc12345" store_world))
              live_record _ _);
      reflexivity.
Defined.

Lemma GetOriginalURL_failure_frame_witness :
  collection (snd (GetOriginalURL (P := demo []) demo_service "old00000"
                                  store_world))
  = [live_record; off_record; old_record].
Proof.
  refine (proj1 (proj2 (GetOriginalURL_failure_frame (P := demo [])
                          demo_service "old00000" store_world
                          ErrURLExpired _))).
  reflexivity.
Defined.

Lemma GetOriginalURL_survives_failed_increment_witness :
  fst (GetOriginalURL (P := demo [1%nat]) demo_service "abc12345" store_world)
  = Ok example_com
  /\ stdout (snd (GetOriginalURL (P := demo [1%nat]) demo_service "abc12345"
                                 store_world))
     = [("Failed to update click count: connection reset" ++ LF)%string].
Proof.
  destruct (GetOriginalURL_survives_failed_increment (P := demo [1%nat])
              demo_service "abc12345" store_world live_record)
    as (Hurl & Hlog & _).
  - reflexivity.
  - reflexivity.
  - intros expiresAt H. discriminate H.
  - split; [exact Hurl|].
    exact (proj1 (Hlog (IOError "connection reset") eq_refl)).
Defined.

Lemma lookup_failure_reported_as_NotFound_witness :
  find (by_short_code "abc12345") (collection store_world) = Some live_record
  /\ fst (GetOriginalURL (P := demo [0%nat]) demo_service "abc12345" store_world)
     = Err ErrURLNotFound
  /\ fst (RedirectURL (P := demo [0%nat]) demo_handler "abc12345" store_world)
     = JSON 404 "URL not found"
  /\ fst (RedirectURL (P := demo []) demo_handler "nothere" store_world)
     = JSON 404 "URL not found".
Proof.
  split; [reflexivity|].
  destruct (lookup_failure_reported_as_NotFound (P := demo [0%nat])
              demo_handler "abc12345" store_world "connection reset")
    as (Hsvc & Hhttp).
  - discriminate.
  - reflexivity.
  - split; [exact Hsvc | split; [exact Hhttp | reflexivity]].
Defined.

Lemma ShortenURL_InvalidURL_iff_witness :
  fst (ShortenURL (P := demo []) demo_service "not a url" None store_world)
  = Err ErrInvalidURL
  /\ snd (ShortenURL (P := demo []) demo_service "not a url" None store_world)
     = store_world
  /\ fst (ShortenURL (P := demo []) demo_service "example.com" None store_world)
     = Err ErrInvalidURL
  /\ fst (ShortenURL (P := demo []) demo_service example_com None store_world)
     <> Err ErrInvalidURL.
Proof.
  assert (Hbad : forall rawURL,
             net_url_Parse rawURL = Some (mkURL "" "") ->
             fst (ShortenURL (P := demo []) demo_service rawURL None store_world)
             = Err ErrInvalidURL).
  { intros rawURL Hparse.
    apply (proj1 (ShortenURL_InvalidURL_iff (P := demo []) demo_service
                    rawURL None store_world)).
    intros (u & Hu & Hs & _). cbn in Hu. rewrite Hparse in Hu.
    inversion Hu. subst u. apply Hs. reflexivity. }
  split; [|split; [|split]].
  - apply Hbad. reflexivity.
  - apply (proj1 (proj2 (ShortenURL_InvalidURL_iff (P := demo []) demo_service
                           "not a url" None store_world))).
    apply Hbad. reflexivity.
  - apply Hbad. reflexivity.
  - intros Hfail.
    apply (proj1 (ShortenURL_InvalidURL_iff (P := demo []) demo_service
                    example_com None store_world)) in Hfail.
    apply Hfail. exists (mkURL "https" "example.com").
    split; [reflexivity | split; discriminate].
Defined.


(** C2, as stated, fails when the lookup by original URL fails: the record
    for the URL is in the collection, yet the call draws a code from the
    pool, stores a second record for the same URL and returns it; the next
    call, whose lookup succeeds, returns the older record, so the two
    consecutive responses carry different codes. *)
Lemma ShortenURL_not_idempotent_on_lookup_failure :
  isValidURL (P := flaky) example_com = true
  /\ find (by_original_url example_com) (collection store_world)
     = Some live_record
  /\ fst first_call = Ok (mkShortURL 0 example_com "pool0001" 1000 None 0 true)
  /\ fst first_call <> Ok live_record
  /\ collection (snd first_call)
     = [live_record; off_record; old_record;
        mkShortURL 4 example_com "pool0001" 1000 None 0 true]
  /\ collection (snd first_call) <> collection store_world
  /\ queue (snd first_call) = ["pool0002"]
  /\ fst second_call = Ok live_record
  /\ ShortCode live_record <> "pool0001".
Proof.
  repeat split; try reflexivity; discriminate.
Qed.

Lemma ShortenURL_idempotent_when_lookup_succeeds_witness :
  (fst (ShortenURL (P := demo []) demo_service example_com (Some 5) store_world)
   = Ok live_record
   /\ collection (snd (ShortenURL (P := demo []) demo_service example_com
                                  (Some 5) store_world))
      = collection store_world)
  /\ (ShortCode (mkShortURL 4 example_org "pool0001" 1000 None 0 true)
      = ShortCode (mkShortURL 0 example_org "pool0001" 1000 None 0 true)
      /\ collection (snd second_new) = collection (snd first_new)).
Proof.
  destruct (ShortenURL_idempotent_when_lookup_succeeds (P := demo [])
              demo_service example_com store_world eq_refl) as (Hsame & _).
  destruct (ShortenURL_idempotent_when_lookup_succeeds (P := demo [])
              demo_service example_org store_world eq_refl) as (_ & Htwice).
  split.
  - destruct (Hsame (Some 5) live_record eq_refl eq_refl) as (H1 & H2 & _).
    split; assumption.
  - apply (Htwice None None
             (mkShortURL 0 example_org "pool0001" 1000 None 0 true)
             (mkShortURL 4 example_org "pool0001" 1000 None 0 true)
             (snd first_new) (snd second_new));
      reflexivity.
Defined.

Lemma clickCount_never_decreases_witness :
  clicks_nonneg
    (collection (run_op (P := demo []) demo_service
                        (ResolveShortLink "abc12345") store_world))
  /\ map ClickCount
         (collection (run_op (P := demo []) demo_service
                             (ResolveShortLink "abc12345") store_world))
     = [1; 3; 7].
Proof.
  split; [|reflexivity].
  apply (proj2 (clickCount_never_decreases (P := demo []) demo_service
                  (ResolveShortLink "abc12345") store_world)).
  unfold clicks_nonneg, store_world. cbn [collection].
  repeat constructor; cbn; lia.
Defined.

(** * Further properties of the code *)

(** ** The code generator, continued *)

Lemma lor_shiftl_add (x y k : Z) :
  0 <= k -> 0 <= y < 2 ^ k -> Z.lor (Z.shiftl x k) y = x * 2 ^ k + y.
Proof.
  intros Hk Hy.
  assert (Hland : Z.land (Z.shiftl x k) y = 0).
  { apply Z.bits_inj'. intros n Hn. rewrite Z.land_spec, Z.bits_0.
    destruct (Z.lt_ge_cases n k) as [Hlt|Hge].
    - rewrite Z.shiftl_spec_low by assumption. reflexivity.
    - rewrite <- (Z.mod_small y (2 ^ k)) by assumption.
      rewrite Z.mod_pow2_bits_high by lia. apply andb_false_r. }
  rewrite <- Z.lxor_lor by assumption.
  rewrite <- Z.add_nocarry_lxor by assumption.
  rewrite Z.shiftl_mul_pow2 by assumption. reflexivity.
Qed.

Lemma uint_range (b : byte) : 0 <= uint b < 256.
Proof.
  unfold uint. pose proof (Byte.to_N_bounded b) as H. lia.
Qed.

Lemma uint_inj (b b' : byte) : uint b = uint b' -> b = b'.
Proof.
  unfold uint. intros H. apply N2Z.inj in H.
  pose proof (Byte.of_to_N b) as Hb. rewrite H, Byte.of_to_N in Hb.
  inversion Hb. reflexivity.
Qed.

(** The 24-bit value [Encode] builds from three bytes. *)
Lemma group_value (a b c : byte) :
  Z.lor (Z.lor (Z.shiftl (uint a) 16) (Z.shiftl (uint b) 8)) (uint c)
  = uint a * 65536 + uint b * 256 + uint c.
Proof.
  pose proof (uint_range a) as Ra. pose proof (uint_range b) as Rb.
  pose proof (uint_range c) as Rc.
  rewrite (Z.shiftl_mul_pow2 (uint b) 8) by lia.
  rewrite (lor_shiftl_add (uint a) (uint b * 2 ^ 8) 16) by lia.
  replace (uint a * 2 ^ 16 + uint b * 2 ^ 8)
    with (Z.shiftl (uint a * 256 + uint b) 8)
    by (rewrite Z.shiftl_mul_pow2 by lia; lia).
  rewrite lor_shiftl_add by lia. lia.
Qed.

Lemma sextets_inj (v v' : Z) :
  0 <= v < 2 ^ 24 -> 0 <= v' < 2 ^ 24 ->
  Z.land (Z.shiftr v 18) 63 = Z.land (Z.shiftr v' 18) 63 ->
  Z.land (Z.shiftr v 12) 63 = Z.land (Z.shiftr v' 12) 63 ->
  Z.land (Z.shiftr v 6) 63 = Z.land (Z.shiftr v' 6) 63 ->
  Z.land v 63 = Z.land v' 63 ->
  v = v'.
Proof.
  intros Hv Hv'. change 63 with (Z.ones 6).
  rewrite !Z.land_ones, !Z.shiftr_div_pow2 by lia.
  change (2 ^ 18) with 262144. change (2 ^ 12) with 4096.
  change (2 ^ 6) with 64. change (2 ^ 24) with 16777216 in *.
  intros H0 H1 H2 H3.
  Z.div_mod_to_equations. lia.
Qed.

Lemma encode_inj (i j : Z) :
  0 <= i < 64 -> 0 <= j < 64 -> encode i = encode j -> i = j.
Proof.
  intros Hi Hj H.
  assert (Hidx : forall n, (n < 64)%nat ->
             index 0 (String (nth n (list_ascii_of_string encodeURL) StdPadding)
                             EmptyString) encodeURL = Some n).
  { intros n Hn. do 64 (destruct n as [|n]; [reflexivity|]). lia. }
  unfold encode in H.
  assert (Hs : Some (Z.to_nat i) = Some (Z.to_nat j)).
  { rewrite <- (Hidx (Z.to_nat i)) by lia. rewrite H. apply Hidx. lia. }
  inversion Hs. lia.
Qed.

(** Three bytes are determined by the four characters they encode to. *)
Lemma Encode_group_inj (a b c a' b' c' : byte) :
  let v := Z.lor (Z.lor (Z.shiftl (uint a) 16) (Z.shiftl (uint b) 8)) (uint c) in
  let v' := Z.lor (Z.lor (Z.shiftl (uint a') 16) (Z.shiftl (uint b') 8)) (uint c') in
  encode (Z.land (Z.shiftr v 18) 63) = encode (Z.land (Z.shiftr v' 18) 63) ->
  encode (Z.land (Z.shiftr v 12) 63) = encode (Z.land (Z.shiftr v' 12) 63) ->
  encode (Z.land (Z.shiftr v 6) 63) = encode (Z.land (Z.shiftr v' 6) 63) ->
  encode (Z.land v 63) = encode (Z.land v' 63) ->
  a = a' /\ b = b' /\ c = c'.
Proof.
  cbv zeta. rewrite !group_value.
  pose proof (uint_range a) as Ra. pose proof (uint_range b) as Rb.
  pose proof (uint_range c) as Rc. pose proof (uint_range a') as Ra'.
  pose proof (uint_range b') as Rb'. pose proof (uint_range c') as Rc'.
  intros H0 H1 H2 H3.
  apply encode_inj in H0; try apply low6_range.
  apply encode_inj in H1; try apply low6_range.
  apply encode_inj in H2; try apply low6_range.
  apply encode_inj in H3; try apply low6_range.
  assert (Hv : uint a * 65536 + uint b * 256 + uint c
               = uint a' * 65536 + uint b' * 256 + uint c').
  { apply sextets_inj; try assumption; change (2 ^ 24) with 16777216; lia. }
  repeat split; apply uint_inj; lia.
Qed.

Lemma String_inj (c c' : ascii) (s s' : string) :
  String c s = String c' s' -> c = c' /\ s = s'.
Proof. intros H. injection H. auto. Qed.

Lemma EncodeToString_six_inj (b0 b1 b2 b3 b4 b5 c0 c1 c2 c3 c4 c5 : byte) :
  EncodeToString [b0; b1; b2; b3; b4; b5]
  = EncodeToString [c0; c1; c2; c3; c4; c5] ->
  [b0; b1; b2; b3; b4; b5] = [c0; c1; c2; c3; c4; c5].
Proof.
  unfold EncodeToString. cbn [base64_Encode string_of_list_ascii].
  intros H.
  apply String_inj in H. destruct H as [H0 H].
  apply String_inj in H. destruct H as [H1 H].
  apply String_inj in H. destruct H as [H2 H].
  apply String_inj in H. destruct H as [H3 H].
  apply String_inj in H. destruct H as [H4 H].
  apply String_inj in H. destruct H as [H5 H].
  apply String_inj in H. destruct H as [H6 H].
  apply String_inj in H. destruct H as [H7 _].
  destruct (Encode_group_inj b0 b1 b2 c0 c1 c2 H0 H1 H2 H3) as (-> & -> & ->).
  destruct (Encode_group_inj b3 b4 b5 c3 c4 c5 H4 H5 H6 H7) as (-> & -> & ->).
  reflexivity.
Qed.

Section CodeGeneratorMore.
Context {P : Platform}.

(** The stripping and the cut leave the base64 text of the six bytes as it
    is. *)
Lemma generateShortCode_value (s : KeyService) (w : World) :
  fst (generateShortCode s w)
  = EncodeToString (map (entropy (rand_reads w)) (seq 0 6))
  /\ length (fst (generateShortCode s w)) = 8%nat
  /\ all_chars url_safe (fst (generateShortCode s w)) = true.
Proof.
  assert (Hcode : fst (generateShortCode s w)
                  = (let stripped :=
                       TrimRight (EncodeToString
                                    (map (entropy (rand_reads w)) (seq 0 6))) "=" in
                     if (8 <? length stripped)%nat then substring 0 8 stripped
                     else stripped)).
  { unfold generateShortCode, bind, rand_Read, ret. cbv zeta.
    destruct (8 <? _)%nat; reflexivity. }
  rewrite Hcode. cbv zeta. cbn [seq map].
  destruct (EncodeToString_six
              (entropy (rand_reads w) 0%nat) (entropy (rand_reads w) 1%nat)
              (entropy (rand_reads w) 2%nat) (entropy (rand_reads w) 3%nat)
              (entropy (rand_reads w) 4%nat) (entropy (rand_reads w) 5%nat))
    as [Hlen Hsafe].
  cbv zeta in Hlen, Hsafe.
  rewrite TrimRight_nothing.
  2:{ eapply all_chars_impl; [|exact Hsafe].
      intros c Hc. rewrite (url_safe_not_padding c Hc). reflexivity. }
  rewrite Hlen. cbn [Nat.ltb Nat.leb]. repeat split; assumption.
Qed.

Lemma GetShortCode_run (s : KeyService) (w : World) :
  GetShortCode s w =
  match redisClient s with
  | None => (shortCode <- generateShortCode s ;; ret (Ok shortCode)) w
  | Some _ =>
      match io_fault (io_calls w) with
      | Some _ =>
          (shortCode <- generateShortCode s ;; ret (Ok shortCode))
            (snd (round_trip w))
      | None =>
          match queue w with
          | [] =>
              (shortCode <- generateShortCode s ;; ret (Ok shortCode))
                (snd (round_trip w))
          | head :: rest =>
              if String.eqb head "" then
                (shortCode <- generateShortCode s ;; ret (Ok shortCode))
                  (set_queue rest (snd (round_trip w)))
              else (Ok head, set_queue rest (snd (round_trip w)))
          end
      end
  end.
Proof.
  unfold GetShortCode. unfold bind at 1. rewrite getFromRedisQueue_run.
  destruct (redisClient s); [|reflexivity].
  destruct (io_fault (io_calls w)); [reflexivity|].
  destruct (queue w) as [|head rest]; [reflexivity|].
  destruct (String.eqb head ""); reflexivity.
Qed.

Lemma local_code_nonempty (s : KeyService) (w : World) (code : string) :
  fst ((shortCode <- generateShortCode s ;; ret (Ok shortCode)) w) = Ok code ->
  length code = 8%nat /\ all_chars url_safe code = true.
Proof.
  unfold bind, ret.
  pose proof (generateShortCode_value s w) as (_ & Hlen & Hsafe).
  destruct (generateShortCode s w) as [c w']. simpl in *.
  intros H. inversion H. subst. split; assumption.
Qed.

(** X1. [GetShortCode] never hands out the empty string: the code is a
    non-empty entry of the pool or a locally generated code of eight
    URL-safe characters. *)
Theorem GetShortCode_nonempty (s : KeyService) (w : World) (code : string) :
  fst (GetShortCode s w) = Ok code ->
  code <> ""
  /\ ((exists rest, queue w = code :: rest)
      \/ (length code = 8%nat /\ all_chars url_safe code = true)).
Proof.
  rewrite GetShortCode_run. intros H.
  assert (Hlocal : length code = 8%nat /\ all_chars url_safe code = true ->
                   code <> ""
                   /\ ((exists rest, queue w = code :: rest)
                       \/ (length code = 8%nat
                           /\ all_chars url_safe code = true))).
  { intros [Hlen Hsafe]. split; [|right; split; assumption].
    intros ->. discriminate Hlen. }
  destruct (redisClient s).
  - destruct (io_fault (io_calls w)).
    + apply Hlocal. exact (local_code_nonempty _ _ _ H).
    + destruct (queue w) as [|head rest] eqn:Hq.
      * apply Hlocal. exact (local_code_nonempty _ _ _ H).
      * destruct (String.eqb head "") eqn:E.
        -- apply Hlocal. exact (local_code_nonempty _ _ _ H).
        -- simpl in H. inversion H. subst head.
           apply String.eqb_neq in E. split; [exact E|].
           left. exists rest. reflexivity.
  - apply Hlocal. exact (local_code_nonempty _ _ _ H).
Qed.

(** X2. An empty string at the head of the pool is removed from the pool
    and not returned: the caller gets the locally generated code. *)
Theorem GetShortCode_skips_empty_entry
        (s : KeyService) (w : World) (rest : list string) :
  redisClient s <> None ->
  io_fault (io_calls w) = None ->
  queue w = "" :: rest ->
  fst (GetShortCode s w) = Ok (fst (generateShortCode s w))
  /\ queue (snd (GetShortCode s w)) = rest
  /\ rand_reads (snd (GetShortCode s w)) = S (rand_reads w).
Proof.
  intros Hclient Hio Hq. rewrite GetShortCode_run.
  destruct (redisClient s); [|exfalso; apply Hclient; reflexivity].
  rewrite Hio, Hq. cbn [String.eqb].
  set (w1 := set_queue rest (snd (round_trip w))).
  assert (Hc : fst (generateShortCode s w1) = fst (generateShortCode s w)).
  { destruct (generateShortCode_value s w1) as (-> & _).
    destruct (generateShortCode_value s w) as (-> & _). reflexivity. }
  assert (Hr : rand_reads (snd (generateShortCode s w1)) = S (rand_reads w)).
  { unfold generateShortCode, bind, rand_Read, ret. cbv zeta.
    destruct (8 <? _)%nat; reflexivity. }
  pose proof (generateShortCode_frame s w1) as (_ & Fq & _).
  unfold bind, ret.
  destruct (generateShortCode s w1) as [c w2]. simpl in *.
  subst c. repeat split; assumption.
Qed.

Lemma GetShortCode_pop (s : KeyService) (w : World)
      (code : string) (rest : list string) :
  redisClient s <> None ->
  io_fault (io_calls w) = None ->
  queue w = code :: rest -> code <> "" ->
  GetShortCode s w = (Ok code, set_queue rest (snd (round_trip w))).
Proof.
  intros Hclient Hio Hq Hne. rewrite GetShortCode_run.
  destruct (redisClient s); [|exfalso; apply Hclient; reflexivity].
  rewrite Hio, Hq. apply String.eqb_neq in Hne. rewrite Hne. reflexivity.
Qed.

(** X3. Codes leave the pool in the order they stand in it: when no call
    fails, as many calls of [GetShortCode] as there are (non-empty) entries
    at the head of the pool return those entries in order, leave the rest
    of the pool, read no random bytes and do not touch the collection. *)
Theorem draw_codes_fifo
        (s : KeyService) (codes others : list string) (w : World) :
  redisClient s <> None ->
  never_fails ->
  queue w = (codes ++ others)%list ->
  Forall (fun code => code <> "") codes ->
  fst (draw_codes s (List.length codes) w) = codes
  /\ queue (snd (draw_codes s (List.length codes) w)) = others
  /\ rand_reads (snd (draw_codes s (List.length codes) w)) = rand_reads w
  /\ collection (snd (draw_codes s (List.length codes) w)) = collection w.
Proof.
  intros Hclient Hnever. revert w.
  induction codes as [|code codes IH]; intros w Hq Hne.
  - simpl. unfold ret. simpl. auto.
  - inversion Hne as [|? ? Hcode Hrest]. subst.
    specialize (IH (set_queue (codes ++ others)%list (snd (round_trip w)))
                   eq_refl Hrest).
    assert (Hstep : draw_codes s (List.length (code :: codes)) w
                    = (code :: fst (draw_codes s (List.length codes)
                                      (set_queue (codes ++ others)%list
                                                 (snd (round_trip w)))),
                       snd (draw_codes s (List.length codes)
                              (set_queue (codes ++ others)%list
                                         (snd (round_trip w)))))).
    { cbn [List.length draw_codes]. unfold bind at 1.
      rewrite (GetShortCode_pop s w code (codes ++ others)
                 Hclient (Hnever _) Hq Hcode).
      unfold bind, ret.
      destruct (draw_codes s (List.length codes) _). reflexivity. }
    rewrite Hstep. cbn [fst snd].
    destruct IH as (Hd & Hq' & Hr & Hc). rewrite Hd.
    simpl in Hr, Hc. repeat split; assumption.
Qed.

(** X5. The generate endpoint always answers 200 with a code of eight
    URL-safe characters; it does not touch the pool or the collection and
    makes no network call. *)
Theorem GenerateKey_answers (h : KeyHandler) (w : World) :
  (exists code,
      fst (GenerateKey h w) = Body StatusOK (mkGenerateResponse code)
      /\ length code = 8%nat /\ all_chars url_safe code = true)
  /\ queue (snd (GenerateKey h w)) = queue w
  /\ collection (snd (GenerateKey h w)) = collection w
  /\ io_calls (snd (GenerateKey h w)) = io_calls w.
Proof.
  unfold GenerateKey, GenerateShortCode, bind, ret.
  pose proof (generateShortCode_value (handler_keyService h) w)
    as (_ & Hlen & Hsafe).
  pose proof (generateShortCode_frame (handler_keyService h) w)
    as (Fc & Fq & _ & _ & Fi & _).
  destruct (generateShortCode (handler_keyService h) w) as [c w'].
  simpl in *. split; [|auto].
  exists c. auto.
Qed.
End CodeGeneratorMore.

(** X4. Local generation loses none of the 48 random bits: two codes are
    equal only if the six bytes they were made from are equal, on whatever
    platforms and in whatever worlds they were drawn. *)
Theorem generateShortCode_injective
        (P1 P2 : Platform) (s1 s2 : KeyService) (w1 w2 : World) :
  fst (generateShortCode (P := P1) s1 w1)
  = fst (generateShortCode (P := P2) s2 w2) ->
  map (entropy (Platform := P1) (rand_reads w1)) (seq 0 6)
  = map (entropy (Platform := P2) (rand_reads w2)) (seq 0 6).
Proof.
  destruct (generateShortCode_value (P := P1) s1 w1) as (-> & _).
  destruct (generateShortCode_value (P := P2) s2 w2) as (-> & _).
  cbn [seq map]. apply EncodeToString_six_inj.
Qed.

(** ** The link registry, continued *)

Lemma find_app_some {A} (f : A -> bool) (l l' : list A) (a : A) :
  find f l = Some a -> find f (l ++ l')%list = Some a.
Proof.
  induction l as [|b l IH]; simpl; [discriminate|].
  destruct (f b); [auto | exact IH].
Qed.

Lemma same_or_clicked_same_record (d d' : ShortURL) :
  same_or_clicked d d' -> same_record d d'.
Proof.
  intros [->| ->]; unfold same_record; simpl; repeat split; lia.
Qed.

Lemma same_record_refl (d : ShortURL) : same_record d d.
Proof. unfold same_record. repeat split. lia. Qed.

Lemma same_record_trans (d1 d2 d3 : ShortURL) :
  same_record d1 d2 -> same_record d2 d3 -> same_record d1 d3.
Proof.
  unfold same_record.
  intros (A1 & A2 & A3 & A4 & A5 & A6 & A7) (B1 & B2 & B3 & B4 & B5 & B6 & B7).
  repeat split; try congruence. lia.
Qed.

Lemma same_records_refl (docs : list ShortURL) : Forall2 same_record docs docs.
Proof. induction docs; constructor; [apply same_record_refl | assumption]. Qed.

Lemma same_records_trans (l1 l2 l3 : list ShortURL) :
  Forall2 same_record l1 l2 -> Forall2 same_record l2 l3 ->
  Forall2 same_record l1 l3.
Proof.
  intros H12. revert l3. induction H12 as [|d1 d2 l1 l2 Hd _ IH]; intros l3 H23.
  - inversion H23. constructor.
  - inversion H23 as [|? d3 ? l3' Hd' Hl']. subst.
    constructor; [eapply same_record_trans; eassumption | apply IH; assumption].
Qed.

Lemma grows_refl (docs : list ShortURL) : grows docs docs.
Proof.
  exists docs, []. rewrite app_nil_r. split; [reflexivity | apply same_records_refl].
Qed.

Lemma grows_trans (l1 l2 l3 : list ShortURL) :
  grows l1 l2 -> grows l2 l3 -> grows l1 l3.
Proof.
  intros (k & f & -> & Hk) (k' & f' & -> & Hk').
  apply Forall2_app_inv_l in Hk'. destruct Hk' as (k1 & k2 & Hk1 & Hk2 & ->).
  exists k1, (k2 ++ f')%list. rewrite app_assoc. split; [reflexivity|].
  eapply same_records_trans; eassumption.
Qed.

(** A record found by its code is still found, as the same record, in a
    collection that has grown. *)
Lemma find_by_code_grows (docs docs' : list ShortURL) (code : string) (d : ShortURL) :
  grows docs docs' ->
  find (by_short_code code) docs = Some d ->
  exists d', find (by_short_code code) docs' = Some d' /\ same_record d d'.
Proof.
  intros (kept & fresh & -> & Hk) Hfind.
  assert (H : exists d', find (by_short_code code) kept = Some d'
                         /\ same_record d d').
  { induction Hk as [|a a' l l' Ha _ IH]; simpl in *; [discriminate|].
    assert (Hsame : by_short_code code a' = by_short_code code a).
    { unfold by_short_code. destruct Ha as (_ & _ & -> & _). reflexivity. }
    rewrite Hsame. destruct (by_short_code code a).
    - inversion Hfind. subst. exists a'. split; [reflexivity | assumption].
    - apply IH. assumption. }
  destruct H as (d' & Hd' & Hs). exists d'. split; [|assumption].
  apply find_app_some. assumption.
Qed.

Lemma violates_unique_index_false (doc : ShortURL) (docs : list ShortURL) :
  violates_unique_index doc docs = false ->
  ~ In (ShortCode doc) (map ShortCode docs)
  /\ ~ In (ID doc) (map ID docs)
  /\ find (by_short_code (ShortCode doc)) docs = None.
Proof.
  unfold violates_unique_index.
  induction docs as [|d docs IH]; simpl; intros H.
  - auto.
  - apply orb_false_iff in H. destruct H as [Hd Hrest].
    apply orb_false_iff in Hd. destruct Hd as [Hid Hcode].
    destruct (IH Hrest) as (IHc & IHi & IHf).
    apply String.eqb_neq in Hcode. apply Z.eqb_neq in Hid.
    unfold by_short_code at 1.
    assert (E : String.eqb (ShortCode d) (ShortCode doc) = false)
      by (apply String.eqb_neq; assumption).
    rewrite E. repeat split; try assumption; intros [H|H]; auto.
Qed.

Lemma inc_click_count_found (code : string) (docs : list ShortURL) (r : ShortURL) :
  find (by_short_code code) docs = Some r ->
  ClickCount r + 1 <= max_int64 ->
  exists docs',
    inc_click_count (by_short_code code) docs = Ok docs'
    /\ find (by_short_code code) docs'
       = Some (with_ClickCount (ClickCount r + 1) r)
    /\ (forall other, other <> code ->
          find (by_short_code other) docs' = find (by_short_code other) docs).
Proof.
  intros Hfind Hmax. induction docs as [|d rest IH]; simpl in *; [discriminate|].
  destruct (by_short_code code d) eqn:Hd.
  - inversion Hfind. subst d.
    apply Z.leb_le in Hmax. rewrite Hmax.
    eexists. split; [reflexivity|]. split.
    + simpl. unfold by_short_code in *. simpl. rewrite Hd. reflexivity.
    + intros other Hne. simpl. unfold by_short_code in *. simpl.
      apply String.eqb_eq in Hd.
      assert (E : String.eqb (ShortCode r) other = false)
        by (apply String.eqb_neq; congruence).
      rewrite E. reflexivity.
  - destruct (IH Hfind) as (rest' & Hinc & Hf & Hother).
    rewrite Hinc. eexists. split; [reflexivity|]. split.
    + simpl. rewrite Hd. exact Hf.
    + intros other Hne. simpl. rewrite (Hother other Hne). reflexivity.
Qed.

Lemma inc_click_count_none (filter : ShortURL -> bool) (docs : list ShortURL) :
  find filter docs = None -> inc_click_count filter docs = Ok docs.
Proof.
  induction docs as [|d rest IH]; simpl; [reflexivity|].
  destruct (filter d); [discriminate|].
  intros H. rewrite (IH H). reflexivity.
Qed.

Lemma same_or_clicked_keys (docs docs' : list ShortURL) :
  Forall2 same_or_clicked docs docs' ->
  map ShortCode docs' = map ShortCode docs /\ map ID docs' = map ID docs.
Proof.
  induction 1 as [|d d' l l' Hd _ [IHc IHi]]; simpl; [auto|].
  rewrite IHc, IHi. destruct Hd as [->| ->]; auto.
Qed.

Lemma NoDup_snoc {A} (l : list A) (x : A) :
  NoDup l -> ~ In x l -> NoDup (l ++ [x])%list.
Proof.
  induction 1 as [|a l Ha _ IH]; simpl; intros Hx.
  - constructor; [auto | constructor].
  - constructor.
    + rewrite in_app_iff. intros [H|[H|[]]]; [auto | subst; auto].
    + apply IH. auto.
Qed.

Section RegistryMore.
Context {P : Platform}.

Lemma CreateShortURL_run
      (originalURL shortCode : string) (expiresAt : option time_Time) (w : World) :
  CreateShortURL (mkShortURL 0 originalURL shortCode 0 expiresAt 0 false) w =
  let filled := mkShortURL 0 originalURL shortCode (clock (clock_reads w))
                           expiresAt 0 true in
  let stored := with_ID (Z.of_nat (S (objectIDs w))) filled in
  let w1 := mkWorld (collection w) (S (objectIDs w)) (queue w) (stdout w)
                    (S (clock_reads w)) (rand_reads w) (S (io_calls w)) in
  match io_fault (io_calls w) with
  | Some msg => ((filled, Some (IOError msg)), w1)
  | None =>
      if violates_unique_index stored (collection w)
      then ((filled, Some mongo_DuplicateKey), w1)
      else ((filled, None), set_collection (collection w ++ [stored]) w1)
  end.
Proof.
  cbv zeta.
  unfold CreateShortURL, InsertOne, new_ObjectID, round_trip, time_Now,
    bind, ret, set_collection. simpl.
  destruct (io_fault (io_calls w)); simpl; [reflexivity|].
  destruct (violates_unique_index _ (collection w)); reflexivity.
Qed.

Lemma ShortenURL_create_run
      (s : URLService) (originalURL : string)
      (expiresIn : option time_Duration) (w : World) :
  isValidURL originalURL = true ->
  (forall x, fst (GetShortURLByOriginal originalURL w) <> Ok (Some x)) ->
  ShortenURL s originalURL expiresIn w =
  match fst (GetShortCode (keyService s) (snd (round_trip w))) with
  | Err err =>
      (Err (Errorf "failed to generate short code" err),
       snd (GetShortCode (keyService s) (snd (round_trip w))))
  | Ok shortCode =>
      let w2 := snd (GetShortCode (keyService s) (snd (round_trip w))) in
      let w3 := match expiresIn with
                | Some _ => snd (time_Now w2)
                | None => w2
                end in
      let expiresAt := match expiresIn with
                       | Some d => Some (time_Add (clock (clock_reads w2)) d)
                       | None => None
                       end in
      let created := CreateShortURL
                       (mkShortURL 0 originalURL shortCode 0 expiresAt 0 false)
                       w3 in
      match snd (fst created) with
      | Some err => (Err (Errorf "failed to create short URL" err), snd created)
      | None => (Ok (fst (fst created)), snd created)
      end
  end.
Proof.
  intros Hvalid Hnone.
  unfold ShortenURL. rewrite Hvalid. cbn [negb]. unfold bind at 1.
  destruct (GetShortURLByOriginal originalURL w) as [existing w1] eqn:Hlook.
  assert (Hw1 : w1 = snd (round_trip w)).
  { rewrite GetShortURLByOriginal_run in Hlook. inversion Hlook. reflexivity. }
  subst w1.
  assert (Hgo : forall k : M (result ShortURL),
             match existing with
             | Ok (Some existing0) => ret (Ok existing0)
             | _ => k
             end (snd (round_trip w)) = k (snd (round_trip w))).
  { intros k. destruct existing as [[x|]|e]; try reflexivity.
    exfalso. apply (Hnone x). reflexivity. }
  rewrite Hgo. clear Hgo. unfold bind at 1.
  destruct (GetShortCode (keyService s) (snd (round_trip w))) as [[code|err] w2];
    cbn [fst snd]; [|reflexivity].
  cbv zeta.
  destruct expiresIn as [d|].
  - unfold bind at 1, time_Now at 1, ret at 1. unfold with_ExpiresAt.
    cbn [ID OriginalURL ShortCode CreatedAt ClickCount IsActive fst snd].
    unfold bind, ret, time_Now. cbn [fst snd].
    destruct (CreateShortURL _ _) as [[filled [err|]] w4]; reflexivity.
  - unfold bind, ret.
    destruct (CreateShortURL _ _) as [[filled [err|]] w4]; reflexivity.
Qed.
(** Everything the creating path of [ShortenURL] can do. *)
Lemma ShortenURL_create_outcome
      (s : URLService) (originalURL : string)
      (expiresIn : option time_Duration) (w : World) :
  isValidURL originalURL = true ->
  (forall x, fst (GetShortURLByOriginal originalURL w) <> Ok (Some x)) ->
  exists shortCode,
    fst (GetShortCode (keyService s) (snd (round_trip w))) = Ok shortCode
    /\ queue (snd (ShortenURL s originalURL expiresIn w))
       = queue (snd (GetShortCode (keyService s) (snd (round_trip w))))
    /\ ((exists e0,
            fst (ShortenURL s originalURL expiresIn w)
            = Err (Errorf "failed to create short URL" e0)
            /\ (e0 = mongo_DuplicateKey \/ exists msg, e0 = IOError msg)
            /\ collection (snd (ShortenURL s originalURL expiresIn w))
               = collection w)
        \/ (exists r,
              fst (ShortenURL s originalURL expiresIn w) = Ok r
              /\ r = mkShortURL 0 originalURL shortCode
                                (clock (match expiresIn with
                                        | Some _ => S (clock_reads w)
                                        | None => clock_reads w
                                        end))
                                (match expiresIn with
                                 | Some d =>
                                     Some (time_Add (clock (clock_reads w)) d)
                                 | None => None
                                 end) 0 true
              /\ collection (snd (ShortenURL s originalURL expiresIn w))
                 = (collection w
                    ++ [with_ID (Z.of_nat (S (objectIDs w))) r])%list
              /\ violates_unique_index
                   (with_ID (Z.of_nat (S (objectIDs w))) r) (collection w)
                 = false)).
Proof.
  intros Hvalid Hnone.
  rewrite (ShortenURL_create_run s originalURL expiresIn w Hvalid Hnone).
  pose proof (GetShortCode_frame (keyService s) (snd (round_trip w))) as F.
  destruct (GetShortCode (keyService s) (snd (round_trip w))) as [rc w2].
  cbn [fst snd] in *.
  destruct F as ([shortCode ->] & Fc & _ & Fk & Fi).
  simpl in Fc, Fk, Fi.
  exists shortCode. split; [reflexivity|]. cbv zeta.
  rewrite CreateShortURL_run. cbv zeta.
  assert (Hio : io_calls (match expiresIn with
                          | Some _ => snd (time_Now w2)
                          | None => w2
                          end) = io_calls w2)
    by (destruct expiresIn; reflexivity).
  assert (Hcol : collection (match expiresIn with
                             | Some _ => snd (time_Now w2)
                             | None => w2
                             end) = collection w)
    by (destruct expiresIn; simpl; assumption).
  assert (Hids : objectIDs (match expiresIn with
                            | Some _ => snd (time_Now w2)
                            | None => w2
                            end) = objectIDs w)
    by (destruct expiresIn; simpl; assumption).
  assert (Hq : queue (match expiresIn with
                      | Some _ => snd (time_Now w2)
                      | None => w2
                      end) = queue w2)
    by (destruct expiresIn; reflexivity).
  assert (Hclk : clock_reads (match expiresIn with
                              | Some _ => snd (time_Now w2)
                              | None => w2
                              end)
                 = match expiresIn with
                   | Some _ => S (clock_reads w)
                   | None => clock_reads w
                   end)
    by (destruct expiresIn; simpl; rewrite Fk; reflexivity).
  rewrite Hio, Hcol, Hids, Hq, Hclk, Fk.
  destruct (io_fault (io_calls w2)) as [msg|]; cbn [fst snd queue collection].
  - split; [reflexivity|]. left. eexists.
    split; [reflexivity|]. split; [right; eexists; reflexivity | reflexivity].
  - match goal with
    | |- context [violates_unique_index ?d (collection w)] =>
        destruct (violates_unique_index d (collection w)) eqn:Hv
    end; cbn [fst snd queue collection set_collection].
    + split; [reflexivity|]. left. eexists.
      split; [reflexivity|]. split; [left; reflexivity | reflexivity].
    + split; [reflexivity|]. right. eexists.
      split; [reflexivity|]. split; [reflexivity|].
      split; [reflexivity | exact Hv].
Qed.

(** X6. When the code the generator hands out is already the code of a
    stored record, [ShortenURL] fails with "failed to create short URL",
    stores nothing and does not try another code; the code drawn is gone
    from the pool. *)
Theorem ShortenURL_code_collision
        (s : URLService) (originalURL shortCode : string)
        (expiresIn : option time_Duration) (w : World) :
  isValidURL originalURL = true ->
  (forall x, fst (GetShortURLByOriginal originalURL w) <> Ok (Some x)) ->
  fst (GetShortCode (keyService s) (snd (round_trip w))) = Ok shortCode ->
  In shortCode (map ShortCode (collection w)) ->
  (exists e0,
      fst (ShortenURL s originalURL expiresIn w)
      = Err (Errorf "failed to create short URL" e0)
      /\ (e0 = mongo_DuplicateKey \/ exists msg, e0 = IOError msg))
  /\ collection (snd (ShortenURL s originalURL expiresIn w)) = collection w
  /\ queue (snd (ShortenURL s originalURL expiresIn w))
     = queue (snd (GetShortCode (keyService s) (snd (round_trip w)))).
Proof.
  intros Hvalid Hnone Hcode Hin.
  destruct (ShortenURL_create_outcome s originalURL expiresIn w Hvalid Hnone)
    as (code & Hcode' & Hq & [(e0 & He & Hkind & Hc)|(r & _ & Hr & _ & Hv)]).
  - split; [exists e0; split; assumption | split; assumption].
  - exfalso. rewrite Hcode in Hcode'. inversion Hcode'. subst code.
    apply violates_unique_index_false in Hv. destruct Hv as (Hnot & _).
    apply Hnot. rewrite Hr. exact Hin.
Qed.

Lemma ShortenURL_failure_cases
        (s : URLService) (originalURL : string)
        (expiresIn : option time_Duration) (w : World) (e : error) :
  fst (ShortenURL s originalURL expiresIn w) = Err e ->
  collection (snd (ShortenURL s originalURL expiresIn w)) = collection w
  /\ (e = ErrInvalidURL
      \/ exists e0, e = Errorf "failed to create short URL" e0
                    /\ (e0 = mongo_DuplicateKey \/ exists msg, e0 = IOError msg)).
Proof.
  intros Hfail.
  destruct (isValidURL originalURL) eqn:Hvalid.
  - destruct (lookup_found_or_not originalURL w) as [[r Hr]|Hnone].
    + rewrite (ShortenURL_existing s originalURL expiresIn w r Hvalid Hr) in Hfail.
      discriminate Hfail.
    + destruct (ShortenURL_create_outcome s originalURL expiresIn w Hvalid Hnone)
        as (code & _ & _ & [(e0 & He & Hkind & Hc)|(r & Hr & _)]).
      * rewrite He in Hfail. inversion Hfail. subst e.
        split; [exact Hc|]. right. exists e0. split; [reflexivity | exact Hkind].
      * rewrite Hr in Hfail. discriminate Hfail.
  - rewrite ShortenURL_invalid in * by assumption.
    inversion Hfail. split; [reflexivity | left; reflexivity].
Qed.

(** X7. A call of [ShortenURL] that fails stores nothing.  Its error is
    [ErrInvalidURL] or "failed to create short URL" around a duplicate key
    or a failure of the insert; the branch "failed to generate short code"
    is never taken. *)
Theorem ShortenURL_failure_stores_nothing
        (s : URLService) (originalURL : string)
        (expiresIn : option time_Duration) (w : World) (e : error) :
  fst (ShortenURL s originalURL expiresIn w) = Err e ->
  collection (snd (ShortenURL s originalURL expiresIn w)) = collection w
  /\ (e = ErrInvalidURL
      \/ exists e0, e = Errorf "failed to create short URL" e0
                    /\ (e0 = mongo_DuplicateKey \/ exists msg, e0 = IOError msg)).
Proof.
  exact (ShortenURL_failure_cases s originalURL expiresIn w e).
Qed.
Lemma run_op_grows (s : URLService) (op : Op) (w : World) :
  grows (collection w) (collection (run_op s op w)).
Proof.
  destruct (run_op_step s op w) as (kept & fresh & Hc & Hk & _).
  exists kept, fresh. split; [exact Hc|].
  eapply Forall2_impl; [|exact Hk]. apply same_or_clicked_same_record.
Qed.

Lemma run_ops_grows (s : URLService) (ops : list Op) (w : World) :
  grows (collection w) (collection (run_ops s ops w)).
Proof.
  unfold run_ops. revert w. induction ops as [|op ops IH]; intros w; simpl.
  - apply grows_refl.
  - eapply grows_trans; [apply run_op_grows | apply IH].
Qed.

Lemma GetOriginalURL_clock_reads (s : URLService) (code : string) (w : World) :
  (clock_reads w <= clock_reads (snd (GetOriginalURL s code w)))%nat.
Proof.
  unfold_registry. simpl.
  destruct (io_fault (io_calls w)); simpl; [lia|].
  destruct (find (by_short_code code) (collection w)) as [r|]; simpl; [|lia].
  destruct (IsActive r); simpl; [|lia].
  destruct (ExpiresAt r) as [expiresAt|]; simpl.
  - destruct (time_After (clock (clock_reads w)) expiresAt); simpl; [lia|].
    destruct (io_fault (S (io_calls w))); simpl; [lia|].
    destruct (inc_click_count (by_short_code code) (collection w)); simpl; lia.
  - destruct (io_fault (S (io_calls w))); simpl; [lia|].
    destruct (inc_click_count (by_short_code code) (collection w)); simpl; lia.
Qed.

Lemma run_op_clock_reads (s : URLService) (op : Op) (w : World) :
  (clock_reads w <= clock_reads (run_op s op w))%nat.
Proof.
  destruct op as [u e|c|c]; simpl.
  - destruct (isValidURL u) eqn:Hvalid.
    + destruct (lookup_found_or_not u w) as [[r Hr]|Hnone].
      * rewrite (ShortenURL_existing s u e w r Hvalid Hr). simpl. lia.
      * rewrite (ShortenURL_clock_reads s u e w Hvalid Hnone).
        destruct e; lia.
    + rewrite ShortenURL_invalid by assumption. simpl. lia.
  - apply GetOriginalURL_clock_reads.
  - unfold_registry. simpl.
    destruct (io_fault (io_calls w)); simpl; [lia|].
    destruct (find (by_short_code c) (collection w)); simpl; lia.
Qed.

Lemma run_ops_clock_reads (s : URLService) (ops : list Op) (w : World) :
  (clock_reads w <= clock_reads (run_ops s ops w))%nat.
Proof.
  unfold run_ops. revert w. induction ops as [|op ops IH]; intros w; simpl.
  - lia.
  - pose proof (run_op_clock_reads s op w). specialize (IH (run_op s op w)). lia.
Qed.

Lemma GetOriginalURL_ok
      (s : URLService) (code : string) (w : World) (r : ShortURL) :
  io_fault (io_calls w) = None ->
  find (by_short_code code) (collection w) = Some r ->
  IsActive r = true ->
  (forall t, ExpiresAt r = Some t ->
             time_After (clock (clock_reads w)) t = false) ->
  fst (GetOriginalURL s code w) = Ok (OriginalURL r).
Proof.
  intros Hio Hfind Hact Hfresh.
  unfold_registry. simpl. rewrite Hio. simpl. rewrite Hfind. simpl.
  rewrite Hact. simpl.
  destruct (ExpiresAt r) as [t|]; simpl.
  - rewrite (Hfresh t eq_refl). simpl.
    destruct (io_fault (S (io_calls w))); simpl; [reflexivity|].
    destruct (inc_click_count (by_short_code code) (collection w)); reflexivity.
  - destruct (io_fault (S (io_calls w))); simpl; [reflexivity|].
    destruct (inc_click_count (by_short_code code) (collection w)); reflexivity.
Qed.

Lemma GetOriginalURL_expired
      (s : URLService) (code : string) (w : World) (r : ShortURL) (t : time_Time) :
  io_fault (io_calls w) = None ->
  find (by_short_code code) (collection w) = Some r ->
  IsActive r = true ->
  ExpiresAt r = Some t -> t < clock (clock_reads w) ->
  fst (GetOriginalURL s code w) = Err ErrURLExpired.
Proof.
  intros Hio Hfind Hact Hexp Hlt.
  unfold_registry. simpl. rewrite Hio. simpl. rewrite Hfind. simpl.
  rewrite Hact, Hexp. simpl. unfold time_After.
  apply Z.ltb_lt in Hlt. rewrite Hlt. reflexivity.
Qed.

(** What a successful creation leaves in the collection. *)
Lemma ShortenURL_created_is_found
      (s : URLService) (originalURL : string)
      (expiresIn : option time_Duration) (w w' : World) (r : ShortURL) :
  find (by_original_url originalURL) (collection w) = None ->
  ShortenURL s originalURL expiresIn w = (Ok r, w') ->
  find (by_short_code (ShortCode r)) (collection w')
  = Some (with_ID (Z.of_nat (S (objectIDs w))) r)
  /\ OriginalURL r = originalURL /\ IsActive r = true
  /\ ExpiresAt r = match expiresIn with
                   | Some d => Some (time_Add (clock (clock_reads w)) d)
                   | None => None
                   end
  /\ (clock_reads w <= clock_reads w')%nat.
Proof.
  intros Hnone Hrun.
  destruct (isValidURL originalURL) eqn:Hvalid;
    [|rewrite ShortenURL_invalid in Hrun by assumption; discriminate Hrun].
  assert (Hlook : forall x, fst (GetShortURLByOriginal originalURL w)
                            <> Ok (Some x)).
  { intros x. rewrite GetShortURLByOriginal_run. cbn [fst]. rewrite Hnone.
    destruct (io_fault (io_calls w)); discriminate. }
  pose proof (ShortenURL_clock_reads s originalURL expiresIn w Hvalid Hlook) as K.
  destruct (ShortenURL_create_outcome s originalURL expiresIn w Hvalid Hlook)
    as (code & _ & _ & [(e0 & He & _)|(r0 & Hr & Hval & Hc & Hv)]);
    rewrite Hrun in *; cbn [fst snd] in *.
  { discriminate He. }
  assert (E : r0 = r) by (inversion Hr; reflexivity).
  rewrite E in Hval, Hc, Hv. clear E Hr r0.
  apply violates_unique_index_false in Hv. destruct Hv as (_ & _ & Hf).
  cbn [with_ID ShortCode] in Hf.
  split.
  { rewrite Hc. rewrite find_app_none by exact Hf.
    cbn. unfold by_short_code. cbn. rewrite String.eqb_refl. reflexivity. }
  rewrite Hval. cbn. repeat split.
  rewrite K. destruct expiresIn; lia.
Qed.

(** X8. No operation of the registry deletes a record, changes its code,
    its URL, its creation time, its expiry or its active flag, or lowers its
    click counter: a record found under a code is found under that code,
    the same but for a click counter at least as large, after any sequence
    of create, resolve and stats calls. *)
Theorem records_persist
        (s : URLService) (ops : list Op) (w : World)
        (code : string) (d : ShortURL) :
  find (by_short_code code) (collection w) = Some d ->
  exists d',
    find (by_short_code code) (collection (run_ops s ops w)) = Some d'
    /\ same_record d d'.
Proof.
  intros Hfind.
  exact (find_by_code_grows _ _ code d (run_ops_grows s ops w) Hfind).
Qed.

(** X9. A link created without expiry resolves to its URL from then on:
    after any sequence of registry operations, resolving the returned code
    gives the original URL whenever the lookup itself does not fail. *)
Theorem created_link_resolves
        (s : URLService) (originalURL : string) (w w' : World) (r : ShortURL)
        (ops : list Op) :
  find (by_original_url originalURL) (collection w) = None ->
  ShortenURL s originalURL None w = (Ok r, w') ->
  io_fault (io_calls (run_ops s ops w')) = None ->
  fst (GetOriginalURL s (ShortCode r) (run_ops s ops w')) = Ok originalURL.
Proof.
  intros Hnone Hrun Hio.
  destruct (ShortenURL_created_is_found s originalURL None w w' r Hnone Hrun)
    as (Hfind & Hurl & Hact & Hexp & _).
  destruct (find_by_code_grows _ _ _ _ (run_ops_grows s ops w') Hfind)
    as (d' & Hfind' & (_ & Hu' & _ & _ & He' & Ha' & _)).
  cbn in Hu', He', Ha'.
  rewrite <- Hurl, <- Hu'.
  apply GetOriginalURL_ok; try assumption.
  - congruence.
  - intros t Ht. congruence.
Qed.

(** X10. On a clock that never runs backwards, a link created with a
    negative expiry duration is expired from the start: resolving its code,
    at once or after any sequence of registry operations, fails with
    [ErrURLExpired] whenever the lookup itself does not fail. *)
Theorem negative_expiry_is_expired
        (s : URLService) (originalURL : string) (d : time_Duration)
        (w w' : World) (r : ShortURL) (ops : list Op) :
  clock_monotone ->
  d < 0 ->
  find (by_original_url originalURL) (collection w) = None ->
  ShortenURL s originalURL (Some d) w = (Ok r, w') ->
  io_fault (io_calls (run_ops s ops w')) = None ->
  fst (GetOriginalURL s (ShortCode r) (run_ops s ops w')) = Err ErrURLExpired.
Proof.
  intros Hmono Hd Hnone Hrun Hio.
  destruct (ShortenURL_created_is_found s originalURL (Some d) w w' r Hnone Hrun)
    as (Hfind & _ & Hact & Hexp & Hk).
  destruct (find_by_code_grows _ _ _ _ (run_ops_grows s ops w') Hfind)
    as (d' & Hfind' & (_ & _ & _ & _ & He' & Ha' & _)).
  cbn in He', Ha'.
  apply (GetOriginalURL_expired s _ _ d' (time_Add (clock (clock_reads w)) d));
    try assumption; try congruence.
  pose proof (run_ops_clock_reads s ops w') as Hk'.
  pose proof (Hmono (clock_reads w) (clock_reads (run_ops s ops w'))) as Hm.
  unfold time_Add. assert (clock (clock_reads w)
                           <= clock (clock_reads (run_ops s ops w')))
    by (apply Hm; lia).
  lia.
Qed.
Lemma GetOriginalURL_counted
      (s : URLService) (code : string) (w : World) (r : ShortURL)
      (docs' : list ShortURL) :
  io_fault (io_calls w) = None ->
  find (by_short_code code) (collection w) = Some r ->
  IsActive r = true ->
  (forall t, ExpiresAt r = Some t ->
             time_After (clock (clock_reads w)) t = false) ->
  io_fault (S (io_calls w)) = None ->
  inc_click_count (by_short_code code) (collection w) = Ok docs' ->
  collection (snd (GetOriginalURL s code w)) = docs'
  /\ io_calls (snd (GetOriginalURL s code w)) = S (S (io_calls w)).
Proof.
  intros Hio Hfind Hact Hfresh Hio2 Hinc.
  unfold_registry. simpl. rewrite Hio. simpl. rewrite Hfind. simpl.
  rewrite Hact. simpl.
  destruct (ExpiresAt r) as [t|]; simpl.
  - rewrite (Hfresh t eq_refl). simpl. rewrite Hio2. simpl. rewrite Hinc.
    simpl. split; reflexivity.
  - rewrite Hio2. simpl. rewrite Hinc. simpl. split; reflexivity.
Qed.

Lemma GetStats_run (s : URLService) (code : string) (w : World) :
  GetStats s code w =
  (match io_fault (io_calls w) with
   | Some _ => Err ErrURLNotFound
   | None =>
       match find (by_short_code code) (collection w) with
       | Some r => Ok r
       | None => Err ErrURLNotFound
       end
   end, snd (round_trip w)).
Proof.
  unfold_registry. simpl.
  destruct (io_fault (io_calls w)); simpl; [reflexivity|].
  destruct (find (by_short_code code) (collection w)); reflexivity.
Qed.

(** X11. When no call fails, a successful resolution adds exactly one click
    to the record it resolved and to no other: the stats read right after
    show the record with its counter raised by one, and every other code
    still finds what it found before. *)
Theorem resolve_then_stats
        (s : URLService) (code : string) (w : World) (r : ShortURL) :
  io_fault (io_calls w) = None ->
  io_fault (S (io_calls w)) = None ->
  io_fault (S (S (io_calls w))) = None ->
  find (by_short_code code) (collection w) = Some r ->
  IsActive r = true ->
  (forall t, ExpiresAt r = Some t -> clock (clock_reads w) <= t) ->
  ClickCount r < max_int64 ->
  fst (GetOriginalURL s code w) = Ok (OriginalURL r)
  /\ fst (GetStats s code (snd (GetOriginalURL s code w)))
     = Ok (with_ClickCount (ClickCount r + 1) r)
  /\ (forall other, other <> code ->
        find (by_short_code other) (collection (snd (GetOriginalURL s code w)))
        = find (by_short_code other) (collection w)).
Proof.
  intros Hio Hio2 Hio3 Hfind Hact Hfresh Hmax.
  assert (Hfresh' : forall t, ExpiresAt r = Some t ->
                              time_After (clock (clock_reads w)) t = false).
  { intros t Ht. unfold time_After. apply Z.ltb_ge. apply Hfresh. exact Ht. }
  destruct (inc_click_count_found code (collection w) r Hfind)
    as (docs' & Hinc & Hf & Hother); [lia|].
  destruct (GetOriginalURL_counted s code w r docs' Hio Hfind Hact Hfresh'
              Hio2 Hinc) as (Hc & Hn).
  split; [apply GetOriginalURL_ok; assumption|].
  split.
  - rewrite GetStats_run. cbn [fst]. rewrite Hn, Hio3, Hc, Hf. reflexivity.
  - intros other Hne. rewrite Hc. apply Hother. exact Hne.
Qed.

(** X12. When no call ever fails, [n] resolutions in a row of an active
    link that does not expire add exactly [n] clicks to its record, as long
    as the counter stays within the 64-bit range. *)
Theorem n_resolves_add_n_clicks
        (s : URLService) (code : string) (n : nat) (w : World) (r : ShortURL) :
  never_fails ->
  find (by_short_code code) (collection w) = Some r ->
  IsActive r = true ->
  ExpiresAt r = None ->
  ClickCount r + Z.of_nat n <= max_int64 ->
  find (by_short_code code)
       (collection (run_ops s (repeat (ResolveShortLink code) n) w))
  = Some (with_ClickCount (ClickCount r + Z.of_nat n) r).
Proof.
  intros Hnever. revert w r.
  induction n as [|n IH]; intros w r Hfind Hact Hexp Hmax.
  - simpl. rewrite Hfind. f_equal. destruct r. unfold with_ClickCount. simpl.
    f_equal. lia.
  - cbn [repeat].
    change (run_ops s (ResolveShortLink code :: repeat (ResolveShortLink code) n) w)
      with (run_ops s (repeat (ResolveShortLink code) n)
                    (snd (GetOriginalURL s code w))).
    destruct (inc_click_count_found code (collection w) r Hfind)
      as (docs' & Hinc & Hf & _); [lia|].
    assert (Hfresh' : forall t, ExpiresAt r = Some t ->
                                time_After (clock (clock_reads w)) t = false)
      by (intros t Ht; congruence).
    destruct (GetOriginalURL_counted s code w r docs' (Hnever _) Hfind Hact
                Hfresh' (Hnever _) Hinc) as (Hc & _).
    rewrite <- Hc in Hf.
    rewrite (IH _ _ Hf); cbn [with_ClickCount ClickCount IsActive ExpiresAt];
      try assumption; try lia.
    unfold with_ClickCount.
    cbn [ID OriginalURL ShortCode CreatedAt ExpiresAt ClickCount IsActive].
    rewrite Nat2Z.inj_succ. do 2 f_equal. lia.
Qed.

(** X13. [GetStats] only reads.  It returns the first record carrying the
    code, whatever its active flag and expiry, exactly when the lookup
    succeeds and such a record exists; every other outcome, a failure of
    the store included, is [ErrURLNotFound]; the collection, the pool, the
    log and the clock are left alone. *)
Theorem GetStats_reads_only (s : URLService) (code : string) (w : World) :
  (forall r, fst (GetStats s code w) = Ok r <->
             io_fault (io_calls w) = None
             /\ find (by_short_code code) (collection w) = Some r)
  /\ (forall e, fst (GetStats s code w) = Err e -> e = ErrURLNotFound)
  /\ collection (snd (GetStats s code w)) = collection w
  /\ queue (snd (GetStats s code w)) = queue w
  /\ stdout (snd (GetStats s code w)) = stdout w
  /\ clock_reads (snd (GetStats s code w)) = clock_reads w.
Proof.
  rewrite GetStats_run. cbn [fst snd].
  split; [|split; [|repeat split]].
  - intros r. destruct (io_fault (io_calls w)).
    + split; [discriminate | intros [H _]; discriminate H].
    + destruct (find (by_short_code code) (collection w)).
      * split; [intros H; inversion H; auto | intros [_ H]; inversion H; auto].
      * split; [discriminate | intros [_ H]; discriminate H].
  - intros e. destruct (io_fault (io_calls w)).
    + intros H. inversion H. reflexivity.
    + destruct (find (by_short_code code) (collection w)); intros H;
        inversion H; reflexivity.
Qed.

(** X14. Incrementing the click counter of a code that no record carries
    changes nothing and is not an error: [UpdateClickCount] reports an
    error only when the round trip to the store fails. *)
Theorem UpdateClickCount_unknown_code (code : string) (w : World) :
  find (by_short_code code) (collection w) = None ->
  collection (snd (UpdateClickCount code w)) = collection w
  /\ (fst (UpdateClickCount code w) = None <-> io_fault (io_calls w) = None).
Proof.
  intros Hnone. unfold_registry. simpl.
  destruct (io_fault (io_calls w)); simpl.
  - split; [reflexivity | split; discriminate].
  - rewrite (inc_click_count_none _ _ Hnone). simpl.
    split; [reflexivity | split; reflexivity].
Qed.

Lemma run_op_unique (s : URLService) (op : Op) (w : World) :
  codes_unique (collection w) /\ ids_unique (collection w) ->
  codes_unique (collection (run_op s op w))
  /\ ids_unique (collection (run_op s op w)).
Proof.
  unfold codes_unique, ids_unique. intros [Hc Hi].
  destruct op as [u e|c|c]; simpl.
  - destruct (isValidURL u) eqn:Hvalid.
    + destruct (lookup_found_or_not u w) as [[r Hr]|Hnone].
      * rewrite (ShortenURL_existing s u e w r Hvalid Hr). simpl. auto.
      * destruct (ShortenURL_create_outcome s u e w Hvalid Hnone)
          as (code & _ & _ & [(e0 & _ & _ & Hcol)|(r & _ & _ & Hcol & Hv)]);
          rewrite Hcol; [auto|].
        apply violates_unique_index_false in Hv. destruct Hv as (Hvc & Hvi & _).
        rewrite !map_app. simpl.
        split; apply NoDup_snoc; assumption.
    + rewrite ShortenURL_invalid by assumption. simpl. auto.
  - destruct (same_or_clicked_keys _ _ (GetOriginalURL_collection s c w))
      as [-> ->]. auto.
  - rewrite GetStats_frame. auto.
Qed.

(** X15. The registry keeps short codes and record ids unique: if no two
    records of the collection share a code or an id, none do after any
    sequence of create, resolve and stats calls. *)
Theorem unique_codes_preserved (s : URLService) (ops : list Op) (w : World) :
  codes_unique (collection w) -> ids_unique (collection w) ->
  codes_unique (collection (run_ops s ops w))
  /\ ids_unique (collection (run_ops s ops w)).
Proof.
  unfold run_ops. revert w. induction ops as [|op ops IH]; intros w Hc Hi; simpl.
  - auto.
  - destruct (run_op_unique s op w (conj Hc Hi)) as [Hc' Hi'].
    apply IH; assumption.
Qed.
End RegistryMore.

(** ** The handlers *)

Section Handlers.
Context {P : Platform}.

Lemma GetOriginalURL_ok_inv
      (s : URLService) (code : string) (w : World) (u : string) :
  fst (GetOriginalURL s code w) = Ok u ->
  exists r,
    io_fault (io_calls w) = None
    /\ find (by_short_code code) (collection w) = Some r
    /\ OriginalURL r = u
    /\ IsActive r = true
    /\ (forall t, ExpiresAt r = Some t -> clock (clock_reads w) <= t).
Proof.
  unfold_registry. simpl.
  destruct (io_fault (io_calls w)); simpl; [discriminate|].
  destruct (find (by_short_code code) (collection w)) as [r|]; simpl;
    [|discriminate].
  destruct (IsActive r) eqn:Hact; simpl; [|discriminate].
  intros H. exists r.
  destruct (ExpiresAt r) as [t|] eqn:Hexp; simpl in H.
  - destruct (time_After (clock (clock_reads w)) t) eqn:Hafter; simpl in H;
      [discriminate|].
    assert (Hu : OriginalURL r = u).
    { destruct (io_fault (S (io_calls w))); simpl in H;
        [|destruct (inc_click_count (by_short_code code) (collection w));
          simpl in H];
        inversion H; reflexivity. }
    repeat split; try assumption; try reflexivity.
    intros t' Ht'. inversion Ht'. subst t'.
    unfold time_After in Hafter. apply Z.ltb_ge in Hafter. exact Hafter.
  - assert (Hu : OriginalURL r = u).
    { destruct (io_fault (S (io_calls w))); simpl in H;
        [|destruct (inc_click_count (by_short_code code) (collection w));
          simpl in H];
        inversion H; reflexivity. }
    repeat split; try assumption; try reflexivity.
    intros t' Ht'. discriminate Ht'.
Qed.

(** X16. The redirect handler sends a visitor only to the URL of a live
    link: a redirect is always a 307 whose location is the original URL of
    the first stored record carrying the code, and that record is active
    and not past its expiry at the clock reading of the request. *)
Theorem RedirectURL_only_live_links
        (h : URLHandler) (code : string) (w : World)
        (status : Z) (location : string) :
  fst (RedirectURL h code w) = Redirect status location ->
  status = StatusTemporaryRedirect
  /\ code <> ""
  /\ exists r,
       find (by_short_code code) (collection w) = Some r
       /\ OriginalURL r = location
       /\ IsActive r = true
       /\ (forall t, ExpiresAt r = Some t -> clock (clock_reads w) <= t).
Proof.
  unfold RedirectURL, bind, ret.
  destruct (String.eqb code "") eqn:Hcode; [discriminate|].
  destruct (GetOriginalURL (urlService h) code w) as [[u|e] w'] eqn:E.
  - cbn [fst]. intros H. inversion H. subst.
    split; [reflexivity|]. split; [apply String.eqb_neq; exact Hcode|].
    assert (Hok : fst (GetOriginalURL (urlService h) code w) = Ok location)
      by (rewrite E; reflexivity).
    destruct (GetOriginalURL_ok_inv _ _ _ _ Hok) as (r & _ & Hf & Hu & Ha & Hx).
    exists r. auto.
  - cbn [fst].
    destruct (error_eqb e ErrURLNotFound); [discriminate|].
    destruct (error_eqb e ErrURLExpired); [discriminate|].
    destruct (error_eqb e ErrURLInactive); discriminate.
Qed.

(** X17. The redirect handler answers 307, 400, 404 or 410 and nothing
    else; an empty code is refused with 400 before anything is looked up;
    and for a non-empty code 410 is the answer exactly when the link is
    inactive or expired. *)
Theorem RedirectURL_statuses (h : URLHandler) (code : string) (w : World) :
  In (status_of (fst (RedirectURL h code w)))
     [StatusTemporaryRedirect; StatusBadRequest; StatusNotFound; StatusGone]
  /\ RedirectURL h "" w = (JSON StatusBadRequest "short code is needed", w)
  /\ (code <> "" ->
      (status_of (fst (RedirectURL h code w)) = StatusGone <->
       fst (GetOriginalURL (urlService h) code w) = Err ErrURLInactive
       \/ fst (GetOriginalURL (urlService h) code w) = Err ErrURLExpired)).
Proof.
  split; [|split; [reflexivity|]].
  - unfold RedirectURL, bind, ret.
    destruct (String.eqb code ""); [simpl; auto|].
    destruct (GetOriginalURL (urlService h) code w) as [[u|e] w'] eqn:E;
      [simpl; auto|].
    assert (He : fst (GetOriginalURL (urlService h) code w) = Err e)
      by (rewrite E; reflexivity).
    apply GetOriginalURL_error_cases in He.
    destruct He as [[He|[He|He]] _]; subst e; simpl; auto.
  - intros Hcode. apply String.eqb_neq in Hcode.
    unfold RedirectURL, bind, ret. rewrite Hcode.
    destruct (GetOriginalURL (urlService h) code w) as [[u|e] w'] eqn:E;
      cbn [fst].
    + simpl. split; [discriminate | intros [H|H]; discriminate H].
    + assert (He : fst (GetOriginalURL (urlService h) code w) = Err e)
        by (rewrite E; reflexivity).
      apply GetOriginalURL_error_cases in He.
      destruct He as [[He|[He|He]] _]; subst e; simpl.
      * split; [discriminate | intros [H|H]; discriminate H].
      * split; [auto | reflexivity].
      * split; [auto | reflexivity].
Qed.


End Handlers.

Lemma int64_mul_hours (hours : Z) :
  (-2562047 <= hours <= 2562047 ->
   int64_mul hours time_Hour = hours * time_Hour)
  /\ (2562048 <= hours <= 5124095 -> int64_mul hours time_Hour < 0).
Proof.
  unfold int64_mul, wrap_int64, time_Hour.
  change (2 ^ 63) with 9223372036854775808.
  change (2 ^ 64) with 18446744073709551616.
  split; intros H; Z.div_mod_to_equations; lia.
Qed.

Section ShortenHandler.
Context {P : Platform}.
Variable Format_RFC3339 : time_Time -> string.

Lemma URLHandler_ShortenURL_run
      (h : URLHandler) (req : ShortenURLRequest) (w : World) :
  URLHandler_ShortenURL Format_RFC3339 h (Bound req) w =
  (match fst (ShortenURL (urlService h) (request_URL req)
                         (match request_ExpiresIn req with
                          | Some hours => Some (int64_mul hours time_Hour)
                          | None => None
                          end) w) with
   | Err err =>
       if error_eqb err ErrInvalidURL
       then Failure StatusBadRequest "Invalid URL"
       else Failure StatusInternalServerError "Failed to shorten URL"
   | Ok shortURL =>
       Body StatusOK
            (mkShortenResponse
               ("http://localhost:8080/" ++ ShortCode shortURL)
               (ShortCode shortURL) (OriginalURL shortURL)
               (match ExpiresAt shortURL with
                | Some expiresAt => Some (Format_RFC3339 expiresAt)
                | None => None
                end))
   end,
   snd (ShortenURL (urlService h) (request_URL req)
                   (match request_ExpiresIn req with
                    | Some hours => Some (int64_mul hours time_Hour)
                    | None => None
                    end) w)).
Proof.
  unfold URLHandler_ShortenURL. cbv zeta. unfold bind.
  destruct (ShortenURL _ _ _ w) as [[shortURL|err] w']; cbn [fst snd].
  - reflexivity.
  - destruct (error_eqb err ErrInvalidURL); reflexivity.
Qed.

(** A record [ShortenURL] returns is stored under the URL that was asked
    for. *)
Lemma ShortenURL_ok_stored
      (s : URLService) (originalURL : string)
      (expiresIn : option time_Duration) (w : World) (r : ShortURL) :
  fst (ShortenURL s originalURL expiresIn w) = Ok r ->
  OriginalURL r = originalURL
  /\ exists p,
       In p (collection (snd (ShortenURL s originalURL expiresIn w)))
       /\ ShortCode p = ShortCode r
       /\ OriginalURL p = originalURL.
Proof.
  intros Hok.
  destruct (isValidURL originalURL) eqn:Hvalid;
    [|rewrite ShortenURL_invalid in Hok by assumption; discriminate Hok].
  destruct (lookup_found_or_not originalURL w) as [[r0 Hr0]|Hnone].
  - rewrite (ShortenURL_existing s originalURL expiresIn w r0 Hvalid Hr0) in *.
    cbn [fst snd] in *. inversion Hok. subst r0.
    rewrite GetShortURLByOriginal_run in Hr0. cbn [fst] in Hr0.
    destruct (io_fault (io_calls w)); [discriminate Hr0|].
    destruct (find (by_original_url originalURL) (collection w)) as [d|] eqn:Hf;
      [|discriminate Hr0].
    inversion Hr0. subst d.
    apply find_some in Hf. destruct Hf as [Hin Hby].
    unfold by_original_url in Hby. apply String.eqb_eq in Hby.
    split; [exact Hby|]. exists r. simpl. auto.
  - destruct (ShortenURL_create_outcome s originalURL expiresIn w Hvalid Hnone)
      as (code & _ & _ & [(e0 & He & _)|(r0 & Hr & Hval & Hc & _)]).
    + rewrite He in Hok. discriminate Hok.
    + rewrite Hr in Hok.
      assert (E : r0 = r) by (inversion Hok; reflexivity).
      rewrite E in Hval, Hc. clear E Hok Hr r0.
      split; [rewrite Hval; reflexivity|].
      exists (with_ID (Z.of_nat (S (objectIDs w))) r).
      rewrite Hc, in_app_iff. split; [right; left; reflexivity|].
      split; [reflexivity|]. rewrite Hval. reflexivity.
Qed.

(** X19. The shorten handler answers 200, 400 or 500.  A request that gin
    cannot bind is refused with 400 and gin's message before anything else
    happens.  A 200 answer reports the URL that was asked for, a short URL
    that is the fixed prefix followed by the short code, and a short code
    under which a record with that URL is stored when the handler returns.
    Any other answer leaves the collection as it was. *)
Theorem URLHandler_ShortenURL_answers
        (h : URLHandler) (bind_result : ShouldBindJSON) (w : World) :
  In (reply_status (fst (URLHandler_ShortenURL Format_RFC3339 h bind_result w)))
     [StatusOK; StatusBadRequest; StatusInternalServerError]
  /\ (forall text,
        URLHandler_ShortenURL Format_RFC3339 h (BindError text) w
        = (Failure StatusBadRequest text, w))
  /\ (forall req st body,
        bind_result = Bound req ->
        fst (URLHandler_ShortenURL Format_RFC3339 h bind_result w) = Body st body ->
        st = StatusOK
        /\ response_OriginalURL body = request_URL req
        /\ response_ShortURL body
           = "http://localhost:8080/" ++ response_ShortCode body
        /\ exists p,
             In p (collection
                     (snd (URLHandler_ShortenURL Format_RFC3339 h bind_result w)))
             /\ ShortCode p = response_ShortCode body
             /\ OriginalURL p = request_URL req)
  /\ (forall st text,
        fst (URLHandler_ShortenURL Format_RFC3339 h bind_result w)
        = Failure st text ->
        collection (snd (URLHandler_ShortenURL Format_RFC3339 h bind_result w))
        = collection w).
Proof.
  split; [|split; [reflexivity|split]].
  - destruct bind_result as [text|req]; [simpl; auto|].
    rewrite URLHandler_ShortenURL_run. cbn [fst].
    destruct (fst (ShortenURL _ _ _ w)) as [r|e]; [simpl; auto|].
    destruct (error_eqb e ErrInvalidURL); simpl; auto.
  - intros req st body -> . rewrite URLHandler_ShortenURL_run. cbn [fst snd].
    destruct (fst (ShortenURL _ _ _ w)) as [r|e] eqn:Hsvc.
    + intros H. inversion H. subst st body. cbn.
      destruct (ShortenURL_ok_stored _ _ _ _ _ Hsvc) as (Hu & p & Hin & Hc & Hpu).
      split; [reflexivity|]. split; [exact Hu|]. split; [reflexivity|].
      exists p. auto.
    + destruct (error_eqb e ErrInvalidURL); discriminate.
  - intros st text. destruct bind_result as [t|req]; [reflexivity|].
    rewrite URLHandler_ShortenURL_run. cbn [fst snd].
    destruct (fst (ShortenURL _ _ _ w)) as [r|e] eqn:Hsvc; [discriminate|].
    intros _.
    exact (proj1 (ShortenURL_failure_cases _ _ _ _ _ Hsvc)).
Qed.
(** X20. The handler turns [expires_in] hours into a duration by a 64-bit
    multiplication with [time.Hour].  For a new link, up to 2562047 hours
    either way the stored expiry is the clock reading plus that many hours;
    from 2562048 to 5124095 hours the product wraps around to a negative
    duration and the stored expiry lies before the clock reading, so the
    link is created already expired. *)
Theorem expires_in_hours_wrap
        (h : URLHandler) (req : ShortenURLRequest) (hours : Z) (w : World)
        (st : Z) (body : ShortenResponse) :
  request_ExpiresIn req = Some hours ->
  find (by_original_url (request_URL req)) (collection w) = None ->
  fst (URLHandler_ShortenURL Format_RFC3339 h (Bound req) w) = Body st body ->
  exists p,
    collection (snd (URLHandler_ShortenURL Format_RFC3339 h (Bound req) w))
    = (collection w ++ [p])%list
    /\ ShortCode p = response_ShortCode body
    /\ (-2562047 <= hours <= 2562047 ->
        ExpiresAt p = Some (clock (clock_reads w) + hours * time_Hour))
    /\ (2562048 <= hours <= 5124095 ->
        exists t, ExpiresAt p = Some t /\ t < clock (clock_reads w)).
Proof.
  intros Hhours Hnone. rewrite URLHandler_ShortenURL_run. cbn [fst snd].
  rewrite Hhours.
  destruct (isValidURL (request_URL req)) eqn:Hvalid.
  2:{ rewrite ShortenURL_invalid by assumption. cbn [fst]. discriminate. }
  assert (Hlook : forall x, fst (GetShortURLByOriginal (request_URL req) w)
                            <> Ok (Some x)).
  { intros x. rewrite GetShortURLByOriginal_run. cbn [fst]. rewrite Hnone.
    destruct (io_fault (io_calls w)); discriminate. }
  destruct (ShortenURL_create_outcome (urlService h) (request_URL req)
              (Some (int64_mul hours time_Hour)) w Hvalid Hlook)
    as (code & _ & _ & [(e0 & He & _)|(r & Hr & Hval & Hc & _)]).
  - rewrite He. cbn [fst]. destruct (error_eqb _ ErrInvalidURL); discriminate.
  - rewrite Hr. cbn [fst]. intros H. inversion H. subst st body.
    exists (with_ID (Z.of_nat (S (objectIDs w))) r).
    split; [exact Hc|]. split; [reflexivity|].
    rewrite Hval. cbn. unfold time_Add.
    destruct (int64_mul_hours hours) as [Hin Hout]. split.
    + intros Hrange. rewrite (Hin Hrange). reflexivity.
    + intros Hrange. specialize (Hout Hrange). eexists.
      split; [reflexivity | lia].
Qed.
End ShortenHandler.

(** ** The health-check repository *)

Lemma latest_check_max (docs : list HealthCheck) (m : HealthCheck) :
  latest_check docs = Some m ->
  In m docs /\ forall d, In d docs -> CheckedAt d <= CheckedAt m.
Proof.
  revert m. induction docs as [|a rest IH]; simpl; intros m H; [discriminate|].
  destruct (latest_check rest) as [m'|] eqn:Hrest.
  - destruct (IH m' eq_refl) as [Hin Hmax].
    destruct (CheckedAt a <? CheckedAt m') eqn:Hlt; inversion H; subst m.
    + apply Z.ltb_lt in Hlt. split; [right; exact Hin|].
      intros d [->|Hd]; [lia | apply Hmax; exact Hd].
    + apply Z.ltb_ge in Hlt. split; [left; reflexivity|].
      intros d [->|Hd]; [lia | specialize (Hmax d Hd); lia].
  - inversion H. subst m. destruct rest as [|b rest'].
    + split; [left; reflexivity|]. intros d [->|[]]. lia.
    + simpl in Hrest. destruct (latest_check rest');
        [destruct (CheckedAt b <? CheckedAt h)|]; discriminate Hrest.
Qed.

Lemma latest_check_some (docs : list HealthCheck) :
  docs <> [] -> exists m, latest_check docs = Some m.
Proof.
  destruct docs as [|a rest]; [intros H; exfalso; apply H; reflexivity|].
  intros _. simpl. destruct (latest_check rest) as [m|].
  - destruct (CheckedAt a <? CheckedAt m); eexists; reflexivity.
  - eexists. reflexivity.
Qed.


(** X21. [GetLatestHealthCheck] returns no record and no error on an empty
    collection; on a non-empty one it returns a stored record whose
    [checked_at] no other record exceeds; and it returns an error only when
    the round trip fails. *)
Theorem GetLatestHealthCheck_latest (fault : option string) (st : HealthStore) :
  (forall msg, fault = Some msg ->
               GetLatestHealthCheck fault st = Err (IOError msg))
  /\ (fault = None -> health_checks st = [] ->
      GetLatestHealthCheck fault st = Ok None)
  /\ (fault = None -> health_checks st <> [] ->
      exists latest,
        GetLatestHealthCheck fault st = Ok (Some latest)
        /\ In latest (health_checks st)
        /\ forall d, In d (health_checks st) -> CheckedAt d <= CheckedAt latest).
Proof.
  unfold GetLatestHealthCheck. split; [|split].
  - intros msg ->. reflexivity.
  - intros -> ->. reflexivity.
  - intros -> Hne. destruct (latest_check_some _ Hne) as [m Hm].
    rewrite Hm. exists m. split; [reflexivity|].
    apply latest_check_max. exact Hm.
Qed.


(** ** The pattern of the validators *)

Lemma append_nil_r (s : string) : s ++ "" = s.
Proof. induction s as [|c s IH]; simpl; [reflexivity | rewrite IH; reflexivity]. Qed.

Lemma append_assoc (s1 s2 s3 : string) : (s1 ++ s2) ++ s3 = s1 ++ s2 ++ s3.
Proof. induction s1 as [|c s1 IH]; simpl; [reflexivity | rewrite IH; reflexivity]. Qed.

Lemma append_eq_nil (s1 s2 : string) : s1 ++ s2 = "" -> s1 = "" /\ s2 = "".
Proof. destruct s1; simpl; [auto | discriminate]. Qed.

Lemma append_eq_cons (s1 s2 s : string) (c : ascii) :
  s1 ++ s2 = String c s ->
  (s1 = "" /\ s2 = String c s)
  \/ exists s1', s1 = String c s1' /\ s = s1' ++ s2.
Proof.
  destruct s1 as [|c1 s1']; simpl; intros H.
  - left. auto.
  - right. inversion H. subst. exists s1'. auto.
Qed.

Lemma all_chars_append (p : ascii -> bool) (s1 s2 : string) :
  all_chars p (s1 ++ s2) = all_chars p s1 && all_chars p s2.
Proof.
  induction s1 as [|c s1 IH]; simpl; [reflexivity|].
  rewrite IH. apply andb_assoc.
Qed.

Lemma length_append (s1 s2 : string) :
  length (s1 ++ s2) = (length s1 + length s2)%nat.
Proof. induction s1 as [|c s1 IH]; simpl; [reflexivity | rewrite IH; reflexivity]. Qed.

Lemma Matches_nil_nullable (r : regex) (s : string) :
  Matches r s -> s = "" -> nullable r = true.
Proof.
  induction 1 as [|p c Hp|r1 r2 s1 s2 _ IH1 _ IH2|r1 r2 s _ IH|r1 r2 s _ IH
                  |r|r s1 s2 _ _ _ _]; intros Hs; simpl; try reflexivity.
  - discriminate Hs.
  - apply append_eq_nil in Hs. destruct Hs as [H1 H2].
    rewrite (IH1 H1), (IH2 H2). reflexivity.
  - rewrite (IH Hs). reflexivity.
  - rewrite (IH Hs). apply orb_true_r.
Qed.

Lemma nullable_Matches_nil (r : regex) : nullable r = true -> Matches r "".
Proof.
  induction r as [| |p|r1 IH1 r2 IH2|r1 IH1 r2 IH2|r IH]; simpl; intros H;
    try discriminate.
  - constructor.
  - apply andb_true_iff in H. destruct H as [H1 H2].
    change "" with ("" ++ ""). constructor; auto.
  - apply orb_true_iff in H. destruct H as [H|H];
      [apply MAltL | apply MAltR]; auto.
  - constructor.
Qed.

Lemma deriv_sound (c : ascii) (r : regex) (s : string) :
  Matches (deriv c r) s -> Matches r (String c s).
Proof.
  revert s. induction r as [| |p|r1 IH1 r2 IH2|r1 IH1 r2 IH2|r IH];
    simpl; intros s H.
  - inversion H.
  - inversion H.
  - destruct (p c) eqn:Hp; inversion H. subst. constructor. exact Hp.
  - assert (Hcat : forall t, Matches (Cat (deriv c r1) r2) t ->
                             Matches (Cat r1 r2) (String c t)).
    { intros t Ht. inversion Ht as [| |? ? s1 s2 H1 H2| | | |]. subst.
      change (String c (s1 ++ s2)) with (String c s1 ++ s2).
      constructor; auto. }
    destruct (nullable r1) eqn:Hn.
    + inversion H as [| | |? ? ? Hl|? ? ? Hr| |]; subst.
      * apply Hcat. exact Hl.
      * change (String c s) with ("" ++ String c s).
        constructor; [apply nullable_Matches_nil; exact Hn | auto].
    + apply Hcat. exact H.
  - inversion H; subst; [apply MAltL | apply MAltR]; auto.
  - inversion H as [| |? ? s1 s2 H1 H2| | | |]. subst.
    change (String c (s1 ++ s2)) with (String c s1 ++ s2).
    constructor; auto.
Qed.

Lemma deriv_complete (c : ascii) (r : regex) (t : string) :
  Matches r t -> forall s, t = String c s -> Matches (deriv c r) s.
Proof.
  induction 1 as [|p c0 Hp|r1 r2 s1 s2 H1 IH1 H2 IH2|r1 r2 s0 _ IH|r1 r2 s0 _ IH
                  |r|r s1 s2 H1 IH1 H2 IH2]; intros s Hs; simpl.
  - discriminate Hs.
  - inversion Hs. subst. rewrite Hp. constructor.
  - apply append_eq_cons in Hs.
    destruct Hs as [[-> ->]|(s1' & -> & ->)].
    + rewrite (Matches_nil_nullable r1 "" H1 eq_refl).
      apply MAltR. apply IH2. reflexivity.
    + assert (Hc : Matches (Cat (deriv c r1) r2) (s1' ++ s2))
        by (constructor; [apply IH1; reflexivity | exact H2]).
      destruct (nullable r1); [apply MAltL|]; exact Hc.
  - apply MAltL. auto.
  - apply MAltR. auto.
  - discriminate Hs.
  - apply append_eq_cons in Hs.
    destruct Hs as [[-> ->]|(s1' & -> & ->)].
    + apply IH2. reflexivity.
    + constructor; [apply IH1; reflexivity | exact H2].
Qed.

(** The matcher decides membership in the language of the pattern. *)
Lemma regex_match_spec (r : regex) (s : string) :
  regex_match r s = true <-> Matches r s.
Proof.
  revert r. induction s as [|c s IH]; intros r; simpl.
  - split; [apply nullable_Matches_nil|].
    intros H. exact (Matches_nil_nullable r "" H eq_refl).
  - rewrite IH. split; [apply deriv_sound|].
    intros H. exact (deriv_complete c r _ H s eq_refl).
Qed.

Lemma Matches_literal (l s : string) : Matches (literal l) s <-> s = l.
Proof.
  revert s. induction l as [|c l IH]; intros s; simpl.
  - split; [intros H; inversion H; reflexivity | intros ->; constructor].
  - split.
    + intros H. inversion H as [| |? ? s1 s2 H1 H2| | | |]. subst.
      inversion H1 as [|? c0 Hc| | | | |]. subst.
      apply Ascii.eqb_eq in Hc. subst c0.
      apply IH in H2. subst. reflexivity.
    + intros ->. change (String c l) with (String c "" ++ l).
      constructor; [constructor; apply Ascii.eqb_refl | apply IH; reflexivity].
Qed.

Lemma Matches_class_star (p : ascii -> bool) (s : string) :
  Matches (Star (Class p)) s <-> all_chars p s = true.
Proof.
  split.
  - intros H. remember (Star (Class p)) as r eqn:Hr.
    induction H as [| | | | |r0|r0 s1 s2 H1 _ H2 IH2]; try discriminate Hr.
    + reflexivity.
    + inversion Hr. subst r0.
      inversion H1 as [|? c Hc| | | | |]. subst. simpl.
      rewrite Hc, (IH2 eq_refl). reflexivity.
  - induction s as [|c s IH]; simpl; intros H.
    + constructor.
    + apply andb_true_iff in H. destruct H as [Hc Hs].
      change (String c s) with (String c "" ++ s).
      constructor; [constructor; exact Hc | auto].
Qed.

Lemma Matches_class_plus (p : ascii -> bool) (s : string) :
  Matches (Cat (Class p) (Star (Class p))) s <->
  s <> "" /\ all_chars p s = true.
Proof.
  split.
  - intros H. inversion H as [| |? ? s1 s2 H1 H2| | | |]. subst.
    inversion H1 as [|? c Hc| | | | |]. subst.
    apply Matches_class_star in H2. simpl. rewrite Hc, H2.
    split; [discriminate | reflexivity].
  - intros [Hne Hall]. destruct s as [|c s]; [exfalso; auto|].
    simpl in Hall. apply andb_true_iff in Hall. destruct Hall as [Hc Hs].
    change (String c s) with (String c "" ++ s).
    constructor; [constructor; exact Hc | apply Matches_class_star; exact Hs].
Qed.

Lemma Matches_two_or_more (p : ascii -> bool) (s : string) :
  Matches (Cat (Class p) (Cat (Class p) (Star (Class p)))) s <->
  (2 <= length s)%nat /\ all_chars p s = true.
Proof.
  split.
  - intros H. inversion H as [| |? ? s1 s2 H1 H2| | | |]. subst.
    inversion H1 as [|? c Hc| | | | |]. subst.
    apply Matches_class_plus in H2. destruct H2 as [Hne Hall].
    destruct s2 as [|c2 s2]; [exfalso; auto|].
    simpl. simpl in Hall. rewrite Hc, Hall. split; [lia | reflexivity].
  - intros [Hlen Hall]. destruct s as [|c s]; [simpl in Hlen; lia|].
    simpl in Hall. apply andb_true_iff in Hall. destruct Hall as [Hc Hs].
    change (String c s) with (String c "" ++ s).
    constructor; [constructor; exact Hc|].
    apply Matches_class_plus. split; [|exact Hs].
    destruct s; [simpl in Hlen; lia | discriminate].
Qed.

Lemma Matches_segments_inv (s : string) :
  Matches (Star (Cat (Class (Ascii.eqb "/")) (Star (Class not_slash)))) s ->
  s = "" \/ exists rest, s = String "/" rest.
Proof.
  intros H.
  remember (Star (Cat (Class (Ascii.eqb "/")) (Star (Class not_slash)))) as r
    eqn:Hr.
  induction H as [| | | | |r0|r0 s1 s2 H1 _ H2 _]; try discriminate Hr.
  - left. reflexivity.
  - inversion Hr. subst r0.
    inversion H1 as [| |? ? t1 t2 Ht1 Ht2| | | |]. subst.
    inversion Ht1 as [|? c Hc| | | | |]. subst.
    apply Ascii.eqb_eq in Hc. subst c.
    right. eexists. reflexivity.
Qed.

Lemma Matches_segments (rest t : string) :
  all_chars not_slash t = true ->
  Matches (Star (Cat (Class (Ascii.eqb "/")) (Star (Class not_slash))))
          (String "/" (t ++ rest)).
Proof.
  revert t. induction rest as [|c rest IH]; intros t Ht.
  - rewrite append_nil_r.
    rewrite <- (append_nil_r (String "/" t)).
    constructor; [|constructor].
    change (String "/" t) with (String "/" "" ++ t).
    constructor; [constructor; reflexivity | apply Matches_class_star; exact Ht].
  - destruct (Ascii.eqb c "/") eqn:Hc.
    + apply Ascii.eqb_eq in Hc. subst c.
      change (String "/" (t ++ String "/" rest))
        with (String "/" t ++ String "/" ("" ++ rest)).
      constructor; [|apply IH; reflexivity].
      change (String "/" t) with (String "/" "" ++ t).
      constructor; [constructor; reflexivity | apply Matches_class_star; exact Ht].
    + replace (t ++ String c rest) with ((t ++ String c "") ++ rest)
        by (rewrite append_assoc; reflexivity).
      apply IH. rewrite all_chars_append, Ht. simpl.
      unfold not_slash. rewrite Hc. reflexivity.
Qed.

(** X23. [IsValidURLRegex] accepts exactly the strings made of "http" or
    "https", "://", a non-empty run of letters, digits, hyphens and dots, a
    dot, two or more letters, and then nothing or a slash followed by
    anything.  So it accepts no other scheme, no port, no user name and no
    host without a dot. *)
Theorem IsValidURLRegex_shape (str : string) :
  IsValidURLRegex str = true <->
  exists scheme host tld path,
    str = scheme ++ "://" ++ host ++ "." ++ tld ++ path
    /\ (scheme = "http" \/ scheme = "https")
    /\ host <> "" /\ all_chars host_char host = true
    /\ (2 <= length tld)%nat /\ all_chars is_letter tld = true
    /\ (path = "" \/ exists rest, path = String "/" rest).
Proof.
  unfold IsValidURLRegex. rewrite regex_match_spec. unfold urlRegex. split.
  - intros H.
    inversion H as [| |? ? scheme s1 Hscheme H1| | | |]. subst.
    inversion H1 as [| |? ? sep s2 Hsep H2| | | |]. subst.
    inversion H2 as [| |? ? host s3 Hhost H3| | | |]. subst.
    inversion H3 as [| |? ? dot s4 Hdot H4| | | |]. subst.
    inversion H4 as [| |? ? tld path Htld Hpath| | | |]. subst.
    apply (Matches_literal "://") in Hsep. subst sep.
    inversion Hdot as [|? c Hc| | | | |]. subst.
    apply Ascii.eqb_eq in Hc. subst c.
    apply Matches_class_plus in Hhost. destruct Hhost as [Hne Hall].
    apply Matches_two_or_more in Htld. destruct Htld as [Hlen Hletters].
    apply Matches_segments_inv in Hpath.
    exists scheme, host, tld, path.
    split; [reflexivity|].
    split.
    { inversion Hscheme as [| | |? ? ? Hl|? ? ? Hr| |]; subst.
      - left. apply (Matches_literal "http"). exact Hl.
      - right. apply (Matches_literal "https"). exact Hr. }
    auto 8.
  - intros (scheme & host & tld & path & -> & Hscheme & Hne & Hall & Hlen
            & Hletters & Hpath).
    constructor.
    { destruct Hscheme as [->| ->]; [apply MAltL | apply MAltR];
        apply Matches_literal; reflexivity. }
    constructor; [apply Matches_literal; reflexivity|].
    constructor; [apply Matches_class_plus; auto|].
    change ("." ++ tld ++ path) with (String "." "" ++ tld ++ path).
    constructor; [constructor; reflexivity|].
    constructor; [apply Matches_two_or_more; auto|].
    destruct Hpath as [->|[rest ->]]; [constructor|].
    exact (Matches_segments rest "" eq_refl).
Qed.

(** ** Dead links *)

Lemma find_unique_code (docs : list ShortURL) (r : ShortURL) :
  codes_unique docs -> In r docs ->
  find (by_short_code (ShortCode r)) docs = Some r.
Proof.
  unfold codes_unique. induction docs as [|d docs IH]; simpl; intros Hu Hin.
  - contradiction.
  - inversion Hu as [|? ? Hnot Hrest]. subst.
    destruct Hin as [->|Hin].
    + unfold by_short_code. rewrite String.eqb_refl. reflexivity.
    + unfold by_short_code at 1.
      destruct (String.eqb (ShortCode d) (ShortCode r)) eqn:E.
      * apply String.eqb_eq in E. exfalso. apply Hnot. rewrite E.
        apply in_map. exact Hin.
      * apply IH; assumption.
Qed.

Section DeadLinks.
Context {P : Platform}.

Lemma GetOriginalURL_inactive
      (s : URLService) (code : string) (w : World) (r : ShortURL) :
  io_fault (io_calls w) = None ->
  find (by_short_code code) (collection w) = Some r ->
  IsActive r = false ->
  fst (GetOriginalURL s code w) = Err ErrURLInactive.
Proof.
  intros Hio Hfind Hact.
  unfold_registry. simpl. rewrite Hio. simpl. rewrite Hfind. simpl.
  rewrite Hact. reflexivity.
Qed.

(** X24. [ShortenURL] hands back the record already stored for a URL as it
    is, whatever expiry the caller asks for and even when that record is
    inactive or expired; with unique codes, resolving the code it returns
    then fails with [ErrURLInactive], respectively [ErrURLExpired]. *)
Theorem ShortenURL_returns_dead_record
        (s : URLService) (originalURL : string)
        (expiresIn : option time_Duration) (w : World) (r : ShortURL) :
  isValidURL originalURL = true ->
  io_fault (io_calls w) = None ->
  io_fault (S (io_calls w)) = None ->
  find (by_original_url originalURL) (collection w) = Some r ->
  codes_unique (collection w) ->
  fst (ShortenURL s originalURL expiresIn w) = Ok r
  /\ (IsActive r = false ->
      fst (GetOriginalURL s (ShortCode r)
             (snd (ShortenURL s originalURL expiresIn w)))
      = Err ErrURLInactive)
  /\ (IsActive r = true ->
      forall t, ExpiresAt r = Some t -> t < clock (clock_reads w) ->
      fst (GetOriginalURL s (ShortCode r)
             (snd (ShortenURL s originalURL expiresIn w)))
      = Err ErrURLExpired).
Proof.
  intros Hvalid Hio Hio2 Hfind Hunique.
  assert (Hrun : ShortenURL s originalURL expiresIn w
                 = (Ok r, snd (round_trip w))).
  { apply ShortenURL_existing; [assumption|].
    rewrite GetShortURLByOriginal_run. cbn [fst]. rewrite Hio, Hfind.
    reflexivity. }
  rewrite Hrun. cbn [fst snd].
  assert (Hcode : find (by_short_code (ShortCode r))
                       (collection (snd (round_trip w))) = Some r).
  { apply find_unique_code; [exact Hunique|].
    apply find_some in Hfind. exact (proj1 Hfind). }
  split; [reflexivity|]. split.
  - intros Hact. apply (GetOriginalURL_inactive s _ _ r); assumption.
  - intros Hact t Hexp Hlt.
    apply (GetOriginalURL_expired s _ _ r t); assumption.
Qed.

(** X25. The expiry instant itself is still inside the life of a link: for
    an active record with an expiry, found by a lookup that does not fail,
    the resolution succeeds exactly when the clock reading is not later
    than the expiry, and fails with [ErrURLExpired] exactly when it is. *)
Theorem expiry_boundary
        (s : URLService) (code : string) (w : World) (r : ShortURL)
        (t : time_Time) :
  io_fault (io_calls w) = None ->
  find (by_short_code code) (collection w) = Some r ->
  IsActive r = true ->
  ExpiresAt r = Some t ->
  (fst (GetOriginalURL s code w) = Ok (OriginalURL r) <->
   clock (clock_reads w) <= t)
  /\ (fst (GetOriginalURL s code w) = Err ErrURLExpired <->
      t < clock (clock_reads w)).
Proof.
  intros Hio Hfind Hact Hexp.
  destruct (Z.lt_ge_cases t (clock (clock_reads w))) as [Hlt|Hge].
  - rewrite (GetOriginalURL_expired s code w r t Hio Hfind Hact Hexp Hlt).
    split; split; try discriminate; try lia; auto.
  - assert (Hok : fst (GetOriginalURL s code w) = Ok (OriginalURL r)).
    { apply GetOriginalURL_ok; try assumption.
      intros t' Ht'. rewrite Hexp in Ht'. inversion Ht'. subst t'.
      unfold time_After. apply Z.ltb_ge. exact Hge. }
    rewrite Hok. split; split; try discriminate; try lia; auto.
Qed.
End DeadLinks.

(** * Runs of the further properties on the example platform *)

Lemma GetShortCode_nonempty_witness :
  "pool0001" <> ""
  /\ ((exists rest, queue store_world = "pool0001" :: rest)
      \/ (length "pool0001" = 8%nat /\ all_chars url_safe "pool0001" = true)).
Proof.
  apply (GetShortCode_nonempty (P := demo []) (keyService demo_service)
           store_world "pool0001").
  reflexivity.
Defined.

Lemma GetShortCode_skips_empty_entry_witness :
  fst (GetShortCode (P := demo []) (keyService demo_service) blank_pool_world)
  = Ok (fst (generateShortCode (P := demo []) (keyService demo_service)
                               blank_pool_world))
  /\ queue (snd (GetShortCode (P := demo []) (keyService demo_service)
                              blank_pool_world))
     = ["pool0003"]
  /\ rand_reads (snd (GetShortCode (P := demo []) (keyService demo_service)
                                   blank_pool_world))
     = 1%nat.
Proof.
  apply (GetShortCode_skips_empty_entry (P := demo [])
           (keyService demo_service) blank_pool_world ["pool0003"]).
  - discriminate.
  - reflexivity.
  - reflexivity.
Defined.

Lemma draw_codes_fifo_witness :
  fst (draw_codes (P := demo []) (keyService demo_service) 2 store_world)
  = ["pool0001"; "pool0002"]
  /\ queue (snd (draw_codes (P := demo []) (keyService demo_service) 2
                            store_world)) = []
  /\ rand_reads (snd (draw_codes (P := demo []) (keyService demo_service) 2
                                 store_world)) = 0%nat
  /\ collection (snd (draw_codes (P := demo []) (keyService demo_service) 2
                                 store_world))
     = collection store_world.
Proof.
  apply (draw_codes_fifo (P := demo []) (keyService demo_service)
           ["pool0001"; "pool0002"] [] store_world).
  - discriminate.
  - intros n. reflexivity.
  - reflexivity.
  - repeat constructor; discriminate.
Defined.

Lemma generateShortCode_injective_witness :
  map (entropy (Platform := demo []) (rand_reads empty_world)) (seq 0 6)
  = map (entropy (Platform := demo [0%nat]) (rand_reads store_world)) (seq 0 6).
Proof.
  apply (generateShortCode_injective (demo []) (demo [0%nat])
           (keyService demo_service) (keyService demo_service)
           empty_world store_world).
  vm_compute. reflexivity.
Defined.

Lemma ShortenURL_code_collision_witness :
  (exists e0,
      fst (ShortenURL (P := demo []) demo_service example_org None collide_world)
      = Err (Errorf "failed to create short URL" e0)
      /\ (e0 = mongo_DuplicateKey \/ exists msg, e0 = IOError msg))
  /\ collection (snd (ShortenURL (P := demo []) demo_service example_org None
                                 collide_world))
     = collection collide_world
  /\ queue (snd (ShortenURL (P := demo []) demo_service example_org None
                            collide_world))
     = queue (snd (GetShortCode (P := demo []) (keyService demo_service)
                                (snd (round_trip (P := demo []) collide_world)))).
Proof.
  apply (ShortenURL_code_collision (P := demo []) demo_service example_org
           "abc12345" None collide_world).
  - reflexivity.
  - intros x. vm_compute. discriminate.
  - reflexivity.
  - simpl. left. reflexivity.
Defined.

Lemma ShortenURL_failure_stores_nothing_witness :
  collection (snd (ShortenURL (P := demo []) demo_service example_org None
                              collide_world))
  = collection collide_world
  /\ (Errorf "failed to create short URL" mongo_DuplicateKey = ErrInvalidURL
      \/ exists e0,
           Errorf "failed to create short URL" mongo_DuplicateKey
           = Errorf "failed to create short URL" e0
           /\ (e0 = mongo_DuplicateKey \/ exists msg, e0 = IOError msg)).
Proof.
  apply (ShortenURL_failure_stores_nothing (P := demo []) demo_service
           example_org None collide_world).
  reflexivity.
Defined.

Lemma records_persist_witness :
  exists d',
    find (by_short_code "abc12345")
         (collection (run_ops (P := demo []) demo_service
                              [ResolveShortLink "abc12345";
                               CreateShortLink example_org None]
                              store_world)) = Some d'
    /\ same_record live_record d'.
Proof.
  apply (records_persist (P := demo []) demo_service
           [ResolveShortLink "abc12345"; CreateShortLink example_org None]
           store_world "abc12345" live_record).
  reflexivity.
Defined.

Lemma created_link_resolves_witness :
  fst (GetOriginalURL (P := demo []) demo_service "pool0001"
         (run_ops (P := demo []) demo_service
                  [ResolveShortLink "pool0001"; GetStatsOf "nothere"]
                  (snd first_new)))
  = Ok example_org.
Proof.
  apply (created_link_resolves (P := demo []) demo_service example_org
           store_world (snd first_new)
           (mkShortURL 0 example_org "pool0001" 1000 None 0 true)
           [ResolveShortLink "pool0001"; GetStatsOf "nothere"]).
  - reflexivity.
  - reflexivity.
  - reflexivity.
Defined.

Lemma negative_expiry_is_expired_witness :
  fst (GetOriginalURL (P := demo []) demo_service "pool0001"
         (run_ops (P := demo []) demo_service [GetStatsOf "pool0001"]
                  (snd expired_new)))
  = Err ErrURLExpired.
Proof.
  apply (negative_expiry_is_expired (P := demo []) demo_service example_org
           (-3600) store_world (snd expired_new)
           (mkShortURL 0 example_org "pool0001" 1001 (Some (-2600)) 0 true)
           [GetStatsOf "pool0001"]).
  - intros m n H. change (1000 + Z.of_nat m <= 1000 + Z.of_nat n). lia.
  - lia.
  - reflexivity.
  - reflexivity.
  - reflexivity.
Defined.

Lemma resolve_then_stats_witness :
  fst (GetOriginalURL (P := demo []) demo_service "abc12345" store_world)
  = Ok example_com
  /\ fst (GetStats (P := demo []) demo_service "abc12345"
            (snd (GetOriginalURL (P := demo []) demo_service "abc12345"
                                 store_world)))
     = Ok (with_ClickCount 1 live_record).
Proof.
  destruct (resolve_then_stats (P := demo []) demo_service "abc12345"
              store_world live_record) as (Hurl & Hstats & _).
  - reflexivity.
  - reflexivity.
  - reflexivity.
  - reflexivity.
  - reflexivity.
  - intros t H. discriminate H.
  - reflexivity.
  - split; [exact Hurl | exact Hstats].
Defined.

Lemma n_resolves_add_n_clicks_witness :
  find (by_short_code "abc12345")
       (collection (run_ops (P := demo []) demo_service
                            (repeat (ResolveShortLink "abc12345") 3)
                            store_world))
  = Some (with_ClickCount (0 + 3) live_record).
Proof.
  apply (n_resolves_add_n_clicks (P := demo []) demo_service "abc12345" 3
           store_world live_record).
  - intros n. reflexivity.
  - reflexivity.
  - reflexivity.
  - reflexivity.
  - unfold max_int64. simpl. lia.
Defined.

Lemma GetStats_reads_only_witness :
  (* stats are served for a link that is switched off and expired *)
  fst (GetStats (P := demo []) demo_service "off00000" store_world)
  = Ok off_record.
Proof.
  apply (proj1 (GetStats_reads_only (P := demo []) demo_service "off00000"
                  store_world)).
  split; reflexivity.
Defined.

Lemma UpdateClickCount_unknown_code_witness :
  collection (snd (UpdateClickCount (P := demo []) "nothere" store_world))
  = collection store_world
  /\ (fst (UpdateClickCount (P := demo []) "nothere" store_world) = None <->
      io_fault (Platform := demo []) (io_calls store_world) = None).
Proof.
  apply (UpdateClickCount_unknown_code (P := demo []) "nothere" store_world).
  reflexivity.
Defined.

Lemma unique_codes_preserved_witness :
  codes_unique
    (collection (run_ops (P := demo []) demo_service
                         [CreateShortLink example_org None;
                          CreateShortLink example_com None;
                          ResolveShortLink "pool0001"]
                         store_world))
  /\ ids_unique
       (collection (run_ops (P := demo []) demo_service
                            [CreateShortLink example_org None;
                             CreateShortLink example_com None;
                             ResolveShortLink "pool0001"]
                            store_world)).
Proof.
  apply (unique_codes_preserved (P := demo []) demo_service
           [CreateShortLink example_org None;
            CreateShortLink example_com None;
            ResolveShortLink "pool0001"] store_world).
  - unfold codes_unique. simpl.
    repeat constructor; simpl; intuition discriminate.
  - unfold ids_unique. simpl.
    repeat constructor; simpl; intuition discriminate.
Defined.

Lemma RedirectURL_only_live_links_witness :
  307 = StatusTemporaryRedirect
  /\ "abc12345" <> ""
  /\ exists r,
       find (by_short_code "abc12345") (collection store_world) = Some r
       /\ OriginalURL r = example_com
       /\ IsActive r = true
       /\ (forall t, ExpiresAt r = Some t ->
                     clock (Platform := demo []) (clock_reads store_world) <= t).
Proof.
  apply (RedirectURL_only_live_links (P := demo []) demo_handler "abc12345"
           store_world 307 example_com).
  reflexivity.
Defined.

Lemma RedirectURL_statuses_witness :
  status_of (fst (RedirectURL (P := demo []) demo_handler "off00000"
                              store_world)) = StatusGone.
Proof.
  apply (proj2 (proj2 (RedirectURL_statuses (P := demo []) demo_handler
                         "off00000" store_world))).
  - discriminate.
  - left. reflexivity.
Defined.


Lemma URLHandler_ShortenURL_answers_witness :
  200 = StatusOK
  /\ example_org = request_URL plain_request
  /\ "http://localhost:8080/pool0001" = "http://localhost:8080/" ++ "pool0001"
  /\ exists p,
       In p (collection
               (snd (URLHandler_ShortenURL (P := demo []) demo_Format
                       demo_handler (Bound plain_request) store_world)))
       /\ ShortCode p = "pool0001"
       /\ OriginalURL p = request_URL plain_request.
Proof.
  apply (proj1 (proj2 (proj2 (URLHandler_ShortenURL_answers (P := demo [])
                                demo_Format demo_handler (Bound plain_request)
                                store_world)))
           plain_request 200
           (mkShortenResponse "http://localhost:8080/pool0001" "pool0001"
                              example_org None)).
  - reflexivity.
  - reflexivity.
Defined.

Lemma expires_in_hours_wrap_witness :
  exists p,
    collection (snd (URLHandler_ShortenURL (P := demo []) demo_Format
                       demo_handler (Bound long_request) store_world))
    = (collection store_world ++ [p])%list
    /\ exists t, ExpiresAt p = Some t /\ t < 1000.
Proof.
  destruct (expires_in_hours_wrap (P := demo []) demo_Format demo_handler
              long_request 2562048 store_world 200
              (mkShortenResponse "http://localhost:8080/pool0001" "pool0001"
                                 example_org (Some "1970-01-01T00:00:00Z")))
    as (p & Hc & _ & _ & Hwrap).
  - reflexivity.
  - reflexivity.
  - reflexivity.
  - exists p. split; [exact Hc|]. apply Hwrap. lia.
Defined.

Lemma GetLatestHealthCheck_latest_witness :
  GetLatestHealthCheck None (mkHealthStore [] 0) = Ok None
  /\ exists latest,
       GetLatestHealthCheck None two_checks = Ok (Some latest)
       /\ In latest (health_checks two_checks)
       /\ forall d, In d (health_checks two_checks) ->
                    CheckedAt d <= CheckedAt latest.
Proof.
  split.
  - apply (proj1 (proj2 (GetLatestHealthCheck_latest None
                           (mkHealthStore [] 0)))); reflexivity.
  - apply (proj2 (proj2 (GetLatestHealthCheck_latest None two_checks)));
      [reflexivity | discriminate].
Defined.


Lemma IsValidURLRegex_shape_witness :
  IsValidURLRegex example_com = true
  /\ exists scheme host tld path,
       "http://example.org" = scheme ++ "://" ++ host ++ "." ++ tld ++ path
       /\ (scheme = "http" \/ scheme = "https")
       /\ host <> "" /\ all_chars host_char host = true
       /\ (2 <= length tld)%nat /\ all_chars is_letter tld = true
       /\ (path = "" \/ exists rest, path = String "/" rest).
Proof.
  split.
  - apply (proj2 (IsValidURLRegex_shape example_com)).
    exists "https", "example", "com", "/very/long/path".
    repeat split; try reflexivity; try discriminate.
    + right. reflexivity.
    + simpl. lia.
    + right. eexists. reflexivity.
  - apply (proj1 (IsValidURLRegex_shape "http://example.org")). reflexivity.
Defined.

Lemma ShortenURL_returns_dead_record_witness :
  fst (ShortenURL (P := demo []) demo_service "https://example.net/off"
                  (Some 3600) store_world) = Ok off_record
  /\ fst (GetOriginalURL (P := demo []) demo_service "off00000"
            (snd (ShortenURL (P := demo []) demo_service
                             "https://example.net/off" (Some 3600)
                             store_world)))
     = Err ErrURLInactive.
Proof.
  destruct (ShortenURL_returns_dead_record (P := demo []) demo_service
              "https://example.net/off" (Some 3600) store_world off_record)
    as (Hret & Hoff & _).
  - reflexivity.
  - reflexivity.
  - reflexivity.
  - reflexivity.
  - unfold codes_unique. simpl.
    repeat constructor; simpl; intuition discriminate.
  - split; [exact Hret | apply Hoff; reflexivity].
Defined.

Lemma expiry_boundary_witness :
  fst (GetOriginalURL (P := demo []) demo_service "old00000" store_world)
  = Err ErrURLExpired.
Proof.
  apply (proj2 (expiry_boundary (P := demo []) demo_service "old00000"
                  store_world old_record 950 eq_refl eq_refl eq_refl eq_refl)).
  reflexivity.
Defined.
